(** * sbclassifier: the count stores, the classifier and chi2Q

    A shallow embedding of [sbclassifier/store.py], [sbclassifier/classifier.py]
    and [sbclassifier/chi2.py].

    Conventions of the embedding:
    - a Python [int] is a [Z]; a Python [dict] is a [gmap]; a Python [set] of
      tokens is a [gset string], iterated in the order of [elements];
    - a Python [float] is an exact number: a rational ([Q]) where the code only
      adds, multiplies, divides and compares, so that the model runs; a real
      ([R]) where the code calls [math.exp], [math.log] or [math.frexp].
      Rounding and underflow of the binary64 format are not modelled, so the
      theorems on these functions are stated with non-strict bounds wherever
      a rounded result can sit on the bound; of overflow, the one that changes
      the control flow is modelled: the [OverflowError] of [math.exp];
    - a Python exception is a [Raise e] result; a method of an object with
      mutable state is a computation in the state-and-error monad [M]. *)

From stdpp Require Import gmap strings list pretty sorting.
From Stdlib Require Import ZArith QArith Qabs Reals Qreals Psatz.

Local Open Scope Z_scope.

(** ** Exceptions and the state-and-error monad *)

Inductive exn : Type :=
  | AssertionError (msg : string)
  | ZeroDivisionError
  | ValueError
  | OverflowError
  | NameError (name : string).

Inductive result (A : Type) : Type :=
  | Ok (a : A)
  | Raise (e : exn).
Arguments Ok {A} a.
Arguments Raise {A} e.

(** A computation reads and writes a state [St]; when it raises, the state is
    the one reached at the point of the raise. *)
Definition M (St A : Type) : Type := St → result A * St.

Definition M_ret_def {St A} (a : A) : M St A := λ s, (Ok a, s).

Definition M_bind_def {St A B} (f : A → M St B) (m : M St A) : M St B :=
  λ s, match m s with
       | (Ok a, s') => f a s'
       | (Raise e, s') => (Raise e, s')
       end.

#[global] Instance M_ret {St} : MRet (M St) := @M_ret_def St.
#[global] Instance M_bind {St} : MBind (M St) := @M_bind_def St.

Definition raise {St A} (e : exn) : M St A := λ s, (Raise e, s).
Definition gets {St A} (f : St → A) : M St A := λ s, (Ok (f s), s).
Definition modify {St} (f : St → St) : M St unit := λ s, (Ok tt, f s).

(** [assert cond, msg] *)
Definition py_assert {St} (cond : bool) (msg : string) : M St unit :=
  if cond then mret tt else raise (AssertionError msg).

(** [for x in xs: acc = body(acc, x)] *)
Fixpoint for_each {St A B} (body : B → A → M St B) (xs : list A) (acc : B)
  : M St B :=
  match xs with
  | [] => mret acc
  | x :: xs' => acc' ← body acc x; for_each body xs' acc'
  end.

(** ** Dictionaries and sets of tokens *)

(** [dct.get(key, d)] *)
Definition dict_get {V} (dct : gmap string V) (key : string) (d : V) : V :=
  default d (dct !! key).

(** [key in dct] *)
Definition dict_in {V} (key : string) (dct : gmap string V) : bool :=
  bool_decide (is_Some (dct !! key)).

(** [set(tokens)], as the sequence a [for] loop over it visits *)
Definition py_set (tokens : list string) : list string :=
  elements (list_to_set tokens : gset string).

(** How often a key occurs in the sequence a loop visits. *)
Definition occurrences (w : string) (keys : list string) : Z :=
  Z.of_nat (length (filter (λ k, k = w) keys)).

(** ** store.py *)

(** The interface [BaseStore]. *)
Class Store (St : Type) : Type := {
  get_nspam_nham : M St (Z * Z);
  get_token_counts : list string → M St (gmap string (Z * Z));
  add_spam : list string → M St unit;
  add_ham : list string → M St unit;
  remove_spam : list string → M St unit;
  remove_ham : list string → M St unit;
}.

Module HeapStore.

Record t : Type := mk {
  spam : gmap string Z;
  ham : gmap string Z;
  nspam : Z;
  nham : Z;
}.

(** [__init__] *)
Definition init : t := {| spam := ∅; ham := ∅; nspam := 0; nham := 0 |}.

Definition _increment (dct : gmap string Z) (keys : list string)
  : gmap string Z :=
  foldl (λ dct key, <[key := dict_get dct key 0 + 1]> dct) dct keys.

Definition _decrement (dct : gmap string Z) (keys : list string)
  : gmap string Z :=
  foldl (λ dct key,
           if dict_in key dct then <[key := dict_get dct key 0 - 1]> dct
           else dct) dct keys.

Definition get_nspam_nham : M t (Z * Z) :=
  gets (λ self, (nspam self, nham self)).

Definition get_token_counts (tokens : list string)
  : M t (gmap string (Z * Z)) :=
  gets (λ self,
    foldl (λ d w,
             if dict_in w (spam self) || dict_in w (ham self)
             then <[w := (dict_get (spam self) w 0, dict_get (ham self) w 0)]> d
             else d) ∅ tokens).

Definition add_spam (tokens : list string) : M t unit :=
  modify (λ self, {| spam := _increment (spam self) tokens; ham := ham self;
                     nspam := nspam self + 1; nham := nham self |}).

Definition add_ham (tokens : list string) : M t unit :=
  modify (λ self, {| spam := spam self; ham := _increment (ham self) tokens;
                     nspam := nspam self; nham := nham self + 1 |}).

Definition remove_spam (tokens : list string) : M t unit :=
  modify (λ self, {| spam := _decrement (spam self) tokens; ham := ham self;
                     nspam := nspam self - 1; nham := nham self |}).

Definition remove_ham (tokens : list string) : M t unit :=
  modify (λ self, {| spam := spam self; ham := _decrement (ham self) tokens;
                     nspam := nspam self; nham := nham self - 1 |}).

(** What a reader of the store sees for one token. *)
Definition spamcount (self : t) (w : string) : Z := dict_get (spam self) w 0.
Definition hamcount (self : t) (w : string) : Z := dict_get (ham self) w 0.

End HeapStore.

#[global] Instance HeapStore_Store : Store HeapStore.t := {|
  get_nspam_nham := HeapStore.get_nspam_nham;
  get_token_counts := HeapStore.get_token_counts;
  add_spam := HeapStore.add_spam;
  add_ham := HeapStore.add_ham;
  remove_spam := HeapStore.remove_spam;
  remove_ham := HeapStore.remove_ham;
|}.

Module SqliteStore.

(** The table [tokens(token PRIMARY KEY, spam, ham)]: a row per token. *)
Definition DOC_COUNT_TOKEN : string := " $DOC_COUNT$ ".

(** [INSERT ... VALUES (?, spam, ham) ON CONFLICT(token) DO UPDATE SET
    spam = spam + spam, ham = ham + ham], run for every token. *)
Definition _upsert (tokens : list string) (spam ham : Z)
  : M (gmap string (Z * Z)) unit :=
  modify (λ db,
    foldl (λ db tok,
             match db !! tok with
             | Some (s, h) => <[tok := (s + spam, h + ham)]> db
             | None => <[tok := (spam, ham)]> db
             end) db tokens).

(** The body passes [keys] to [executemany]; no such name is bound in the
    method or the module, so evaluating the argument raises [NameError]
    before the statement runs. *)
Definition _update (tokens : list string) (spam ham : Z)
  : M (gmap string (Z * Z)) unit :=
  raise (NameError "keys").

(** [SELECT max(0, spam), max(0, ham) FROM tokens WHERE token = ?] for every
    token; a token without a row contributes nothing. *)
Definition get_token_counts (tokens : list string)
  : M (gmap string (Z * Z)) (gmap string (Z * Z)) :=
  gets (λ db,
    foldl (λ d w,
             match db !! w with
             | Some (s, h) => <[w := (Z.max 0 s, Z.max 0 h)]> d
             | None => d
             end) ∅ tokens).

Definition get_nspam_nham : M (gmap string (Z * Z)) (Z * Z) :=
  counts ← get_token_counts [DOC_COUNT_TOKEN];
  match counts !! DOC_COUNT_TOKEN with
  | Some dc => mret dc
  | None => mret (0, 0)
  end.

Definition add_spam (tokens : list string) : M (gmap string (Z * Z)) unit :=
  _upsert tokens 1 0;; _upsert [DOC_COUNT_TOKEN] 1 0.

Definition add_ham (tokens : list string) : M (gmap string (Z * Z)) unit :=
  _upsert tokens 0 1;; _upsert [DOC_COUNT_TOKEN] 0 1.

Definition remove_spam (tokens : list string) : M (gmap string (Z * Z)) unit :=
  _update tokens (-1) 0;; _upsert [DOC_COUNT_TOKEN] (-1) 0.

Definition remove_ham (tokens : list string) : M (gmap string (Z * Z)) unit :=
  _update tokens 0 (-1);; _upsert [DOC_COUNT_TOKEN] 0 (-1).

(** The columns of a token's row, zero when there is no row, and what the
    two reading methods report for them. *)
Definition column_spam (db : gmap string (Z * Z)) (w : string) : Z :=
  (default (0, 0) (db !! w)).1.
Definition column_ham (db : gmap string (Z * Z)) (w : string) : Z :=
  (default (0, 0) (db !! w)).2.
Definition spamcount (db : gmap string (Z * Z)) (w : string) : Z :=
  Z.max 0 (column_spam db w).
Definition hamcount (db : gmap string (Z * Z)) (w : string) : Z :=
  Z.max 0 (column_ham db w).
Definition nspam (db : gmap string (Z * Z)) : Z := spamcount db DOC_COUNT_TOKEN.
Definition nham (db : gmap string (Z * Z)) : Z := hamcount db DOC_COUNT_TOKEN.

End SqliteStore.

#[global] Instance SqliteStore_Store : Store (gmap string (Z * Z)) := {|
  get_nspam_nham := SqliteStore.get_nspam_nham;
  get_token_counts := SqliteStore.get_token_counts;
  add_spam := SqliteStore.add_spam;
  add_ham := SqliteStore.add_ham;
  remove_spam := SqliteStore.remove_spam;
  remove_ham := SqliteStore.remove_ham;
|}.

(** ** classifier.py: the rational part *)

(** [x / y] on floats: Python raises on a zero divisor. *)
Definition py_div {St} (x y : Q) : M St Q :=
  if Qeq_bool y 0 then raise ZeroDivisionError else mret (x / y)%Q.

(** [n or 1.0] on a count *)
Definition py_or_one (n : Z) : Z := if n =? 0 then 1 else n.

(** [l[:k]] *)
Definition py_slice_to {A} (k : Z) (l : list A) : list A :=
  if k <? 0 then take (length l - Z.to_nat (- k)) l else take (Z.to_nat k) l.

(** [list.sort]: a stable sort that only asks whether one key is less than
    another. *)
Fixpoint py_insert {A} (ltb : A → A → bool) (x : A) (l : list A) : list A :=
  match l with
  | [] => [x]
  | y :: l' => if ltb y x then y :: py_insert ltb x l' else x :: y :: l'
  end.

Definition py_sort {A} (ltb : A → A → bool) (l : list A) : list A :=
  foldr (py_insert ltb) [] l.

(** [<] on the tuples [(distance, prob, token)]: the first components that
    differ decide. *)
Definition Qltb (x y : Q) : bool :=
  match (x ?= y)%Q with Lt => true | _ => false end.

Definition tup_ltb (a b : Q * Q * string) : bool :=
  let '(d1, p1, t1) := a in
  let '(d2, p2, t2) := b in
  if negb (Qeq_bool d1 d2) then Qltb d1 d2
  else if negb (Qeq_bool p1 p2) then Qltb p1 p2
  else String.ltb t1 t2.

(** The tunable attributes of a [Classifier] instance. *)
Record Classifier : Type := {
  unknown_token_prob : Q;
  unknown_token_strength : Q;
  minimum_prob_strength : Q;
  ham_cutoff : Q;
  spam_cutoff : Q;
  max_discriminators : Z;
}.

(** The class attributes. *)
Definition default_classifier : Classifier := {|
  unknown_token_prob := 0.5;
  unknown_token_strength := 0.45;
  minimum_prob_strength := 0.1;
  ham_cutoff := 0.2;
  spam_cutoff := 0.9;
  max_discriminators := 150;
|}.

Section classifier.
Context {St : Type} `{!Store St}.
Variable self : Classifier.

Definition probability (spamcount hamcount : Z) : M St Q :=
  '(nspam, nham) ← get_nspam_nham;
  let nspam := py_or_one nspam in
  let nham := py_or_one nham in
  py_assert (hamcount <=? nham) "Token seen in more ham than ham trained.";;
  py_assert (spamcount <=? nspam) "Token seen in more spam than spam trained.";;
  hamratio ← py_div (inject_Z hamcount) (inject_Z nham);
  spamratio ← py_div (inject_Z spamcount) (inject_Z nspam);
  prob ← py_div spamratio (hamratio + spamratio)%Q;
  let S := unknown_token_strength self in
  let StimesX := (S * unknown_token_prob self)%Q in
  let n := hamcount + spamcount in
  py_div (StimesX + inject_Z n * prob)%Q (S + inject_Z n)%Q.

Definition _worddistanceget (counts : gmap string (Z * Z)) (token : string)
  : M St (Q * Q * string) :=
  prob ← match counts !! token with
         | Some (spamcount, hamcount) => probability spamcount hamcount
         | None => mret (unknown_token_prob self)
         end;
  mret (Qabs (prob - 0.5), prob, token).

Definition _getclues (tokens : list string) : M St (list (Q * string)) :=
  let tokens := py_set tokens in
  counts ← get_token_counts tokens;
  clues ← for_each (λ clues token,
                      tup ← _worddistanceget counts token;
                      if Qle_bool (minimum_prob_strength self) (tup.1.1)
                      then mret (clues ++ [tup])
                      else mret clues) tokens [];
  let clues := py_sort tup_ltb clues in
  mret ((λ '(distance, prob, token), (prob, token)) <$>
          py_slice_to (max_discriminators self) clues).

(** Training: the token stream becomes a set, which the store receives. *)
Definition Classifier_add_spam (tokens : list string) : M St unit :=
  add_spam (py_set tokens).
Definition Classifier_add_ham (tokens : list string) : M St unit :=
  add_ham (py_set tokens).
Definition Classifier_remove_spam (tokens : list string) : M St unit :=
  remove_spam (py_set tokens).
Definition Classifier_remove_ham (tokens : list string) : M St unit :=
  remove_ham (py_set tokens).

End classifier.

(** ** chi2.py *)

(** [min(a, b)] on floats *)
Definition py_min (a b : R) : R := if Rlt_dec b a then b else a.

(** The loop of [chi2Q]: [for i in range(1, v // 2): term *= m / i; sum += term],
    returning the final [(sum, term)]. *)
Definition chi2Q_loop (m : R) (idx : list Z) (sum term : R) : R * R :=
  foldl (λ '(sum, term) i,
           let term := (term * (m / IZR i))%R in
           ((sum + term)%R, term)) (sum, term) idx.

(** Where binary64 overflows: a real of at least [2 ** 1024 - 2 ** 970], half
    a unit in the last place above the largest float, rounds to infinity. *)
Definition overflow_bound : R := (2 ^ 970 * (2 ^ 54 - 1))%R.

(** [math.exp]: an [OverflowError] where the result is out of range. *)
Definition math_exp (x : R) : result R :=
  if Rle_dec overflow_bound (exp x) then Raise OverflowError else Ok (exp x).

Definition chi2Q (x2 : R) (v : Z) : result R :=
  if negb (Z.land v 1 =? 0) then Raise (AssertionError "") else
  let m := (x2 / 2)%R in
  match math_exp (- m) with
  | Raise e => Raise e
  | Ok e =>
      let '(sum, term) := chi2Q_loop m (seqZ 1 (v `div` 2 - 1)) e e in
      Ok (py_min sum 1)
  end.

(** ** classifier.py: [spamprob] *)

(** [math.log]: a domain error outside the positive reals. *)
Definition math_log (x : R) : result R :=
  if Rlt_dec 0 x then Ok (ln x) else Raise ValueError.

(** [math.frexp]: [x = m * 2 ** e] with [0.5 <= abs(m) < 1], and [(0.0, 0)]
    at zero. *)
Definition math_frexp (x : R) : R * Z :=
  if Req_dec_T x 0 then (0%R, 0)
  else let e := Int_part (ln (Rabs x) / ln 2) + 1 in
       ((x * powerRZ 2 (- e))%R, e).

Definition LN2 : R := ln 2.

Definition lift {St A} (r : result A) : M St A := λ s, (r, s).

(** What [spamprob] returns: a float, or a pair of a float and a list. *)
Inductive spamprob_result : Type :=
  | Prob (prob : R)
  | ProbEvidence (prob : R) (evidence : list (string * R)).

Section spamprob.
Context {St : Type} `{!Store St}.
Variable self : Classifier.

(** One round of the loop over the clues; [S_] and [H_] are the source's
    [S] and [H]. *)
Definition spamprob_step (acc : R * Z * R * Z) (clue : Q * string)
  : R * Z * R * Z :=
  let '(S_, Sexp, H_, Hexp) := acc in
  let '(prob, token) := clue in
  let S_ := (S_ * (1 - Q2R prob))%R in
  let H_ := (H_ * Q2R prob)%R in
  let '(S_, Sexp) :=
    if Rlt_dec S_ 1e-200
    then let '(S_, e) := math_frexp S_ in (S_, Sexp + e)
    else (S_, Sexp) in
  let '(H_, Hexp) :=
    if Rlt_dec H_ 1e-200
    then let '(H_, e) := math_frexp H_ in (H_, Hexp + e)
    else (H_, Hexp) in
  (S_, Sexp, H_, Hexp).

Definition spamprob (tokens : list string) (evidence : bool)
  : M St spamprob_result :=
  clues ← _getclues self tokens;
  let '(S_, Sexp, H_, Hexp) := foldl spamprob_step (1%R, 0, 1%R, 0) clues in
  lnS ← lift (math_log S_);
  let S_ := (lnS + IZR Sexp * LN2)%R in
  lnH ← lift (math_log H_);
  let H_ := (lnH + IZR Hexp * LN2)%R in
  let n := Z.of_nat (length clues) in
  '(prob, S_, H_) ←
    (if negb (n =? 0) then
       qS ← lift (chi2Q (-2 * S_) (2 * n));
       let S_ := (1 - qS)%R in
       qH ← lift (chi2Q (-2 * H_) (2 * n));
       let H_ := (1 - qH)%R in
       mret (((S_ - H_ + 1) / 2)%R, S_, H_)
     else mret (0.5%R, S_, H_));
  if evidence then
    let clues : list (string * Q) := (λ c : Q * string, (c.2, c.1)) <$> clues in
    let clues : list (string * Q) :=
      py_sort (λ a b : string * Q, Qltb (a.2) (b.2)) clues in
    mret (ProbEvidence prob
            (("*H*", H_) :: ("*S*", S_) ::
               ((λ c : string * Q, (c.1, Q2R c.2)) <$> clues)))
  else mret (Prob prob).

End spamprob.

(** ** Sequences of training operations *)

Inductive op : Type :=
  | AddSpam (T : gset string)
  | AddHam (T : gset string)
  | RemoveSpam (T : gset string)
  | RemoveHam (T : gset string).

Definition run_op {St} `{!Store St} (o : op) : M St unit :=
  match o with
  | AddSpam T => add_spam (elements T)
  | AddHam T => add_ham (elements T)
  | RemoveSpam T => remove_spam (elements T)
  | RemoveHam T => remove_ham (elements T)
  end.

(** The operations run one after the other; a raise ends the run. *)
Fixpoint run_ops {St} `{!Store St} (ops : list op) : M St unit :=
  match ops with
  | [] => mret tt
  | o :: ops' => run_op o;; run_ops ops'
  end.

(** One occurrence of [T] taken out of the trained messages. *)
Fixpoint remove_one (T : gset string) (trained : list (gset string))
  : list (gset string) :=
  match trained with
  | [] => []
  | T' :: rest => if decide (T' = T) then rest else T' :: remove_one T rest
  end.

(** Every remove retracts a token set that was passed to the corresponding add
    and has not been removed since; [spams] and [hams] are the token sets
    trained and not yet retracted. *)
Fixpoint retracts_trained (spams hams : list (gset string)) (ops : list op)
  : bool :=
  match ops with
  | [] => true
  | AddSpam T :: ops' => retracts_trained (T :: spams) hams ops'
  | AddHam T :: ops' => retracts_trained spams (T :: hams) ops'
  | RemoveSpam T :: ops' =>
      bool_decide (T ∈ spams) && retracts_trained (remove_one T spams) hams ops'
  | RemoveHam T :: ops' =>
      bool_decide (T ∈ hams) && retracts_trained spams (remove_one T hams) ops'
  end.

(** How many of the trained messages contain the token. *)
Definition containing (w : string) (trained : list (gset string)) : Z :=
  Z.of_nat (length (filter (λ T : gset string, w ∈ T) trained)).

(** The volatile store after training exactly the messages [spams] and
    [hams]. *)
Definition heap_trained (spams hams : list (gset string)) (s : HeapStore.t)
  : Prop :=
  HeapStore.nspam s = Z.of_nat (length spams) ∧
  HeapStore.nham s = Z.of_nat (length hams) ∧
  ∀ w, HeapStore.spamcount s w = containing w spams ∧
       HeapStore.hamcount s w = containing w hams.

(** In the durable store no column is negative or above the column of the
    row that holds the totals. *)
Definition sqlite_bounded (db : gmap string (Z * Z)) : Prop :=
  ∀ w, 0 ≤ SqliteStore.column_spam db w
           ≤ SqliteStore.column_spam db SqliteStore.DOC_COUNT_TOKEN ∧
       0 ≤ SqliteStore.column_ham db w
           ≤ SqliteStore.column_ham db SqliteStore.DOC_COUNT_TOKEN.

(** ** Stores used as examples *)

(** Ten spam and ten ham messages trained; ["a"] was in all ten spam
    messages, ["b"] in one of them, neither in a ham message. *)
Definition two_token_store : HeapStore.t :=
  HeapStore.mk {[ "a" := 10; "b" := 1 ]} ∅ 10 10.

(** A classifier that keeps a single discriminator; the other attributes are
    the defaults. *)
Definition one_discriminator : Classifier := {|
  unknown_token_prob := 0.5;
  unknown_token_strength := 0.45;
  minimum_prob_strength := 0.1;
  ham_cutoff := 0.2;
  spam_cutoff := 0.9;
  max_discriminators := 1;
|}.

(** The tokens ["t1"], ..., ["t151"]; 151 spam messages trained, ["t" i] was
    in [i] of them. *)
Definition numbered_token (i : nat) : string := "t" +:+ pretty i.

Definition numbered_tokens : list string := numbered_token <$> seq 1 151.

Definition numbered_store : HeapStore.t :=
  HeapStore.mk
    (list_to_map ((λ i, (numbered_token i, Z.of_nat i)) <$> seq 1 151)) ∅ 151 0.

(** Running [_getclues] with the default attributes on the numbered tokens:
    150 clues are kept, ["t151"] is not among them, and every token is
    informative and no farther from one half than ["t151"]. *)
Definition default_drops_strongest : bool :=
  match (get_token_counts numbered_tokens numbered_store).1,
        (_getclues default_classifier numbered_tokens numbered_store).1 with
  | Ok counts, Ok clues =>
      match (_worddistanceget default_classifier counts (numbered_token 151)
               numbered_store).1 with
      | Ok (d151, _, _) =>
          (length clues =? 150)%nat
          && negb (bool_decide (numbered_token 151 ∈ snd <$> clues))
          && bool_decide (numbered_token 1 ∈ snd <$> clues)
          && forallb (λ t,
                match (_worddistanceget default_classifier counts t
                         numbered_store).1 with
                | Ok (d, _, _) =>
                    Qle_bool (minimum_prob_strength default_classifier) d
                    && Qle_bool d d151
                | Raise _ => false
                end) numbered_tokens
      | Raise _ => false
      end
  | _, _ => false
  end.

(** Two spam messages and one ham message are trained, then the first spam
    message is retracted. *)
Definition training_run : list op :=
  [AddSpam {[ "buy"; "viagra" ]}; AddHam {[ "hello"; "world" ]};
   AddSpam {[ "buy" ]}; RemoveSpam {[ "buy"; "viagra" ]}].

(** A computation that leaves the state as it found it, whether it returns or
    raises. *)
Definition read_only {St A} (m : M St A) : Prop := ∀ s, (m s).2 = s.

(** What [spamprob] returns when there is no clue: one half, and in the
    evidence the two logarithms of the empty products. *)
Definition neutral (evidence : bool) : spamprob_result :=
  if evidence then ProbEvidence 0.5 [("*H*", 0%R); ("*S*", 0%R)]
  else Prob 0.5.

(** ** The series behind [chi2Q] *)

(** The loop of [chi2Q] adds up [exp(-m) * m ** i / i!]; these are the terms
    and partial sums without the factor [exp(-m)], and the value the loop
    reaches after [n] rounds. *)
Definition series_term (n : nat) (m : R) : R := (m ^ n / INR (fact n))%R.

Fixpoint series_sum (n : nat) (m : R) : R :=
  match n with
  | O => series_term 0 m
  | S k => (series_sum k m + series_term (S k) m)%R
  end.

Definition chi2Q_series (n : nat) (m : R) : R :=
  (exp (- m) * series_sum n m)%R.

(** ** The two stores side by side *)

(** Two computations, each on its own store, return the same result and leave
    their stores as they found them. *)
Definition agree {St1 St2 A}
    (m1 : M St1 A) (s1 : St1) (m2 : M St2 A) (s2 : St2) : Prop :=
  ∃ r, m1 s1 = (r, s1) ∧ m2 s2 = (r, s2).

(** A run that only adds, and no message of which contains the reserved
    token of the durable store. *)
Fixpoint adds_without_reserved (ops : list op) : bool :=
  match ops with
  | [] => true
  | AddSpam T :: ops' | AddHam T :: ops' =>
      bool_decide (SqliteStore.DOC_COUNT_TOKEN ∉ T) && adds_without_reserved ops'
  | RemoveSpam _ :: _ | RemoveHam _ :: _ => false
  end.

(** A volatile store and a table that hold the same counts: the reserved row
    carries the totals, every other row is the pair of counts of a token that
    has an entry in one of the two dictionaries, and nothing is negative. *)
Definition same_counts (s : HeapStore.t) (db : gmap string (Z * Z)) : Prop :=
  default (0, 0) (db !! SqliteStore.DOC_COUNT_TOKEN)
    = (HeapStore.nspam s, HeapStore.nham s) ∧
  0 ≤ HeapStore.nspam s ∧ 0 ≤ HeapStore.nham s ∧
  HeapStore.spam s !! SqliteStore.DOC_COUNT_TOKEN = None ∧
  HeapStore.ham s !! SqliteStore.DOC_COUNT_TOKEN = None ∧
  ∀ w, 0 ≤ HeapStore.spamcount s w ∧ 0 ≤ HeapStore.hamcount s w ∧
       (w ≠ SqliteStore.DOC_COUNT_TOKEN →
        db !! w =
        if dict_in w (HeapStore.spam s) || dict_in w (HeapStore.ham s)
        then Some (HeapStore.spamcount s w, HeapStore.hamcount s w)
        else None).

(** Two spam messages and one ham message are trained. *)
Definition adding_run : list op :=
  [AddSpam {[ "buy"; "viagra" ]}; AddHam {[ "hello"; "world" ]};
   AddSpam {[ "buy" ]}].

(** ** Tuples and clues *)

(** A tuple as [_worddistanceget] builds it, kept by the test of
    [_getclues]. *)
Definition kept_tuple (self : Classifier) (tup : Q * Q * string) : Prop :=
  Qle_bool (minimum_prob_strength self) (tup.1.1) = true ∧
  tup.1.1 = Qabs (tup.1.2 - 0.5).

(** The distance from one half of the probability of a clue. *)
Definition clue_distance (clue : Q * string) : Q := Qabs (clue.1 - 0.5).

(** ** The two statistics of [spamprob] *)

(** The sums of logarithms that [spamprob] recovers from its two running
    products: of [1 - p] for the spam statistic, of [p] for the ham
    statistic. *)
Definition ln_spam_sum (clues : list (Q * string)) : R :=
  foldr (λ clue acc, (ln (1 - Q2R (clue.1)) + acc)%R) 0%R clues.

Definition ln_ham_sum (clues : list (Q * string)) : R :=
  foldr (λ clue acc, (ln (Q2R (clue.1)) + acc)%R) 0%R clues.

(** A clue whose probability lies strictly between 0 and 1. *)
Definition proper_clue (clue : Q * string) : Prop :=
  (0 < Q2R (clue.1) < 1)%R.

(** The float that [spamprob] returns, alone or as the first component of the
    pair, and the list it returns with it. *)
Definition score (r : spamprob_result) : R :=
  match r with
  | Prob prob => prob
  | ProbEvidence prob _ => prob
  end.

Definition evidence_of (r : spamprob_result) : list (string * R) :=
  match r with
  | Prob _ => []
  | ProbEvidence _ evidence => evidence
  end.

(** ** chi2.py: the unit Gaussian *)

(** Computations that may raise and touch no store. *)
#[global] Instance result_ret : MRet result := λ A a, Ok a.
#[global] Instance result_bind : MBind result :=
  λ A B f r, match r with Ok a => f a | Raise e => Raise e end.

(** [math.sqrt]: a domain error below zero. *)
Definition math_sqrt (x : R) : result R :=
  if Rlt_dec x 0 then Raise ValueError else Ok (sqrt x).

(** [x / y] on floats, outside the store monad. *)
Definition float_div (x y : R) : result R :=
  if Req_dec_T y 0 then Raise ZeroDivisionError else Ok (x / y)%R.

(** [sqrt2pi], the default argument of [normZ]. *)
Definition sqrt2pi : R := sqrt (2 * PI).

Definition normZ (z : R) : R := (exp (- z * z / 2) / sqrt2pi)%R.

Definition normIQ (p : R) : result R :=
  if Rle_dec 0 p then
    if Rle_dec p 1 then
      let flipped := if Rlt_dec 0.5 p then true else false in
      let p := if flipped then (1 - p)%R else p in
      z ← (if Req_dec_T p 0 then Ok 8.3%R
           else
             lnp ← math_log p;
             t ← math_sqrt (-2 * lnp);
             q ← float_div (2.30753 + 0.27061 * t)
                           (1 + 0.99229 * t + 0.04481 * t ^ 2);
             Ok (t - q)%R);
      Ok (if flipped then (- z)%R else z)
    else Raise (AssertionError "")
  else Raise (AssertionError "").

(** ** A message with many clues *)

(** The clues that [_getclues] returns, with the default attributes, for the
    numbered tokens on the numbered store. *)
Definition numbered_clues : list (Q * string) :=
  match (_getclues default_classifier numbered_tokens numbered_store).1 with
  | Ok clues => clues
  | Raise _ => []
  end.

(** [proper_clue], decided on the rational. *)
Definition proper_clueb (clue : Q * string) : bool :=
  Qltb 0 (clue.1) && Qltb (clue.1) 1.

(** The product of [1.0 - prob] over the clues, the number that the running
    product [S] of [spamprob] stands for. *)
Definition spam_product (clues : list (Q * string)) : Q :=
  foldr (λ clue acc, Qred ((1 - clue.1) * acc)) 1%Q clues.

(** * Running a computation *)

Lemma run_bind {St A B} (m : M St A) (f : A → M St B) (s : St) :
  (m ≫= f) s = match m s with
               | (Ok a, s') => f a s'
               | (Raise e, s') => (Raise e, s')
               end.
Proof. reflexivity. Qed.

Lemma run_ret {St A} (a : A) (s : St) : (mret a : M St A) s = (Ok a, s).
Proof. reflexivity. Qed.

Ltac run_monad :=
  unfold HeapStore.add_spam, HeapStore.add_ham, HeapStore.remove_spam,
    HeapStore.remove_ham, HeapStore.get_nspam_nham, HeapStore.get_token_counts;
  unfold mbind, M_bind, M_bind_def, mret, M_ret, M_ret_def, modify, gets, raise,
    lift;
  simpl.

(** * Properties of the stores *)

Lemma occurrences_nil w : occurrences w [] = 0.
Proof. reflexivity. Qed.

Lemma occurrences_cons w k keys :
  occurrences w (k :: keys) =
  (if decide (k = w) then 1 else 0) + occurrences w keys.
Proof.
  unfold occurrences. rewrite filter_cons.
  destruct (decide (k = w)); simpl length; lia.
Qed.

Lemma occurrences_nonneg w keys : 0 ≤ occurrences w keys.
Proof. unfold occurrences. lia. Qed.

Lemma occurrences_not_in w keys : w ∉ keys → occurrences w keys = 0.
Proof.
  induction keys as [|k keys IH]; intros Hw; [done|].
  rewrite occurrences_cons, IH by set_solver.
  destruct (decide (k = w)); [set_solver | lia].
Qed.

Lemma occurrences_NoDup w keys :
  NoDup keys → occurrences w keys = if decide (w ∈ keys) then 1 else 0.
Proof.
  induction 1 as [|k keys Hk Hnd IH]; [done|].
  rewrite occurrences_cons.
  destruct (decide (k = w)) as [->|Hne].
  - rewrite occurrences_not_in by done.
    destruct (decide (w ∈ w :: keys)); [lia | set_solver].
  - rewrite IH.
    destruct (decide (w ∈ keys)) as [Hin|Hin], (decide (w ∈ k :: keys)) as [Hin'|Hin'];
      [lia | | | lia].
    + exfalso. apply Hin'. apply elem_of_cons. by right.
    + exfalso. apply elem_of_cons in Hin' as [->|?]; done.
Qed.

Lemma occurrences_elements w (T : gset string) :
  occurrences w (elements T) = if decide (w ∈ T) then 1 else 0.
Proof.
  rewrite occurrences_NoDup by apply NoDup_elements.
  destruct (decide (w ∈ elements T)) as [H|H], (decide (w ∈ T)) as [H'|H'];
    try done; rewrite elem_of_elements in H; done.
Qed.

Lemma dict_in_spec {V} (key : string) (dct : gmap string V) :
  dict_in key dct = true ↔ is_Some (dct !! key).
Proof. unfold dict_in. apply bool_decide_eq_true. Qed.

Lemma dict_in_None {V} (key : string) (dct : gmap string V) :
  dct !! key = None → dict_in key dct = false.
Proof.
  intros H. unfold dict_in. apply bool_decide_eq_false.
  rewrite H. by intros [? ?].
Qed.

Lemma dict_in_Some {V} (key : string) (dct : gmap string V) x :
  dct !! key = Some x → dict_in key dct = true.
Proof. intros H. apply dict_in_spec. eauto. Qed.

Module HeapStoreFacts.
Import HeapStore.

(** After [_increment], a visited key is present and its count grew by the
    number of visits; the other keys are untouched. *)
Lemma _increment_lookup dct keys w :
  _increment dct keys !! w =
  if decide (w ∈ keys) then Some (dict_get dct w 0 + occurrences w keys)
  else dct !! w.
Proof.
  unfold _increment. revert dct.
  induction keys as [|k keys IH]; intros dct; [done|].
  simpl foldl. rewrite IH, occurrences_cons. unfold dict_get.
  destruct (decide (k = w)) as [->|Hne].
  - rewrite lookup_insert_eq. simpl.
    destruct (decide (w ∈ keys)) as [Hin|Hin].
    + rewrite decide_True by set_solver. f_equal; lia.
    + rewrite decide_True by set_solver.
      rewrite occurrences_not_in by done. f_equal; lia.
  - rewrite lookup_insert_ne by done.
    destruct (decide (w ∈ keys)) as [Hin|Hin],
             (decide (w ∈ k :: keys)) as [Hin'|Hin'].
    + f_equal; lia.
    + exfalso. apply Hin'. apply elem_of_cons. by right.
    + exfalso. apply elem_of_cons in Hin' as [->|?]; done.
    + done.
Qed.

Lemma _increment_get dct keys w :
  dict_get (_increment dct keys) w 0 = dict_get dct w 0 + occurrences w keys.
Proof.
  unfold dict_get at 1. rewrite _increment_lookup.
  destruct (decide (w ∈ keys)); [done|].
  rewrite occurrences_not_in by done. unfold dict_get. lia.
Qed.

(** [_decrement] never creates a key, and lowers a present key by the number
    of visits. *)
Lemma _decrement_lookup dct keys w :
  _decrement dct keys !! w = (λ c, c - occurrences w keys) <$> dct !! w.
Proof.
  unfold _decrement. revert dct.
  induction keys as [|k keys IH]; intros dct.
  - simpl. rewrite occurrences_nil. destruct (dct !! w); simpl; f_equal; lia.
  - simpl foldl. rewrite IH, occurrences_cons. unfold dict_get.
    destruct (decide (k = w)) as [->|Hne].
    + destruct (dct !! w) as [c|] eqn:Hw.
      * rewrite (dict_in_Some _ _ _ Hw), lookup_insert_eq.
        simpl. f_equal; lia.
      * rewrite (dict_in_None _ _ Hw), Hw. done.
    + destruct (dict_in k dct).
      * rewrite lookup_insert_ne by done.
        destruct (dct !! w); simpl; f_equal; lia.
      * destruct (dct !! w); simpl; f_equal; lia.
Qed.

Lemma _decrement_get dct keys w :
  dict_get (_decrement dct keys) w 0 =
  if dict_in w dct then dict_get dct w 0 - occurrences w keys else 0.
Proof.
  unfold dict_get. rewrite _decrement_lookup.
  destruct (dct !! w) as [c|] eqn:Hw.
  - by rewrite (dict_in_Some _ _ _ Hw).
  - by rewrite (dict_in_None _ _ Hw).
Qed.

Lemma _decrement_increment_get dct keys w :
  dict_get (_decrement (_increment dct keys) keys) w 0 = dict_get dct w 0.
Proof.
  rewrite _decrement_get, _increment_get.
  destruct (dict_in w (_increment dct keys)) eqn:Hin; [lia|].
  assert (_increment dct keys !! w = None) as Hnone.
  { destruct (_increment dct keys !! w) eqn:E; [|done].
    rewrite (dict_in_Some _ _ _ E) in Hin. done. }
  rewrite _increment_lookup in Hnone.
  destruct (decide (w ∈ keys)); [done|].
  unfold dict_get. by rewrite Hnone.
Qed.

End HeapStoreFacts.

(** ** The volatile store: adding and then removing *)

(** C6, as stated, fails: on a fresh volatile store, [add_spam({"a"})]
    followed by [remove_spam({"a"})] returns normally but does not give the
    prior state back. The spam dictionary, empty before, holds the entry
    ["a": 0] afterwards, and [get_token_counts(["a"])], which returned [{}]
    before, returns [{"a": (0, 0)}]. *)
Lemma heap_add_remove_not_exact :
  let T := elements ({[ "a" ]} : gset string) in
  let r := (HeapStore.add_spam T;; HeapStore.remove_spam T) HeapStore.init in
  r.1 = Ok tt ∧
  r.2 = HeapStore.mk {[ "a" := 0 ]} ∅ 0 0 ∧
  r.2 ≠ HeapStore.init ∧
  (HeapStore.get_token_counts ["a"] HeapStore.init).1 = Ok ∅ ∧
  (HeapStore.get_token_counts ["a"] (r.2)).1 = Ok {[ "a" := (0, 0) ]}.
Proof.
  assert ((HeapStore.add_spam (elements ({[ "a" ]} : gset string));;
           HeapStore.remove_spam (elements ({[ "a" ]} : gset string)))
            HeapStore.init
          = (Ok tt, HeapStore.mk {[ "a" := 0 ]} ∅ 0 0)) as Hrun
    by (vm_compute; reflexivity).
  cbv zeta. rewrite Hrun. cbn [fst snd].
  split; [done|]. split; [done|]. split.
  - intros Heq. apply (f_equal (λ s, HeapStore.spam s !! "a")) in Heq.
    vm_compute in Heq. discriminate.
  - vm_compute. done.
Qed.

(** C6, amended. For the volatile store, for every prior state and every
    sequence of tokens [T] (a token set in particular), [add_spam(T)] followed
    by [remove_spam(T)] returns normally and restores every token's spam and
    ham count as read with a missing entry counted as 0, both totals [nspam]
    and [nham], and the ham dictionary. In the spam dictionary every token of
    [T] ends with an entry holding its prior count, so a token of [T] that
    had no entry keeps one with count 0, and the other tokens are untouched:
    the state is restored exactly if and only if every token of [T] had an
    entry in the spam dictionary before. *)
Theorem heap_add_remove_spam_restores (s : HeapStore.t) (T : list string) :
  let r := (HeapStore.add_spam T;; HeapStore.remove_spam T) s in
  r.1 = Ok tt ∧
  (∀ w, HeapStore.spamcount (r.2) w = HeapStore.spamcount s w ∧
        HeapStore.hamcount (r.2) w = HeapStore.hamcount s w) ∧
  HeapStore.nspam (r.2) = HeapStore.nspam s ∧
  HeapStore.nham (r.2) = HeapStore.nham s ∧
  HeapStore.ham (r.2) = HeapStore.ham s ∧
  (∀ w, HeapStore.spam (r.2) !! w =
        if decide (w ∈ T) then Some (HeapStore.spamcount s w)
        else HeapStore.spam s !! w) ∧
  (r.2 = s ↔ ∀ w, w ∈ T → is_Some (HeapStore.spam s !! w)).
Proof.
  destruct s as [spam ham nspam nham].
  assert (∀ w, HeapStore._decrement (HeapStore._increment spam T) T !! w =
               if decide (w ∈ T) then Some (dict_get spam w 0)
               else spam !! w) as Hspam.
  { intros w.
    rewrite HeapStoreFacts._decrement_lookup, HeapStoreFacts._increment_lookup.
    destruct (decide (w ∈ T)) as [Hw|Hw]; simpl.
    - f_equal. lia.
    - rewrite occurrences_not_in by done.
      destruct (spam !! w); simpl; f_equal; lia. }
  run_monad.
  split; [done|]. split.
  { intros w. split; [|done]. apply HeapStoreFacts._decrement_increment_get. }
  split; [lia|]. split; [lia|]. split; [done|]. split; [exact Hspam|].
  split.
  - intros Heq w Hw. injection Heq as Heq _.
    rewrite <- Heq, Hspam, decide_True by done. by eexists.
  - intros Hin. f_equal; [|lia]. apply map_eq. intros w. rewrite Hspam.
    destruct (decide (w ∈ T)) as [Hw|Hw]; [|done].
    destruct (Hin w Hw) as [c Hc]. simpl in Hc.
    unfold dict_get. by rewrite Hc.
Qed.

(** The same round trip on the ham side. *)
Lemma heap_add_remove_ham_restores (s : HeapStore.t) (T : list string) :
  let r := (HeapStore.add_ham T;; HeapStore.remove_ham T) s in
  r.1 = Ok tt ∧
  (∀ w, HeapStore.spamcount (r.2) w = HeapStore.spamcount s w ∧
        HeapStore.hamcount (r.2) w = HeapStore.hamcount s w) ∧
  HeapStore.nspam (r.2) = HeapStore.nspam s ∧
  HeapStore.nham (r.2) = HeapStore.nham s.
Proof.
  run_monad. repeat split; try lia.
  apply HeapStoreFacts._decrement_increment_get.
Qed.

(** ** The volatile store: removing what was never trained *)

(** C5, as stated, fails: on a fresh volatile store, [remove_spam({"a"})], for
    a token that is not present, returns normally; no error is reported, the
    token is skipped and [nspam] becomes [-1]. *)
Lemma heap_remove_untrained_is_silent :
  HeapStore.spam HeapStore.init !! "a" = None ∧
  HeapStore.remove_spam (elements ({[ "a" ]} : gset string)) HeapStore.init =
  (Ok tt, HeapStore.mk ∅ ∅ (-1) 0).
Proof. vm_compute. done. Qed.

(** C5, amended. In the volatile store [remove_spam(T)] and [remove_ham(T)]
    never raise. For a token set [T], a token of [T] that has no entry is
    skipped and stays absent; a token of [T] that has an entry, also with
    count zero, has its count lowered by one (below zero if need be); tokens
    outside [T] and the other dictionary are untouched; the total [nspam]
    (respectively [nham]) is lowered by one. *)
Theorem heap_remove_never_raises (s : HeapStore.t) (T : gset string) :
  (∃ s', HeapStore.remove_spam (elements T) s = (Ok tt, s') ∧
         HeapStore.nspam s' = HeapStore.nspam s - 1 ∧
         HeapStore.nham s' = HeapStore.nham s ∧
         HeapStore.ham s' = HeapStore.ham s ∧
         ∀ w, HeapStore.spam s' !! w =
              if decide (w ∈ T) then (λ c, c - 1) <$> HeapStore.spam s !! w
              else HeapStore.spam s !! w) ∧
  (∃ s', HeapStore.remove_ham (elements T) s = (Ok tt, s') ∧
         HeapStore.nham s' = HeapStore.nham s - 1 ∧
         HeapStore.nspam s' = HeapStore.nspam s ∧
         HeapStore.spam s' = HeapStore.spam s ∧
         ∀ w, HeapStore.ham s' !! w =
              if decide (w ∈ T) then (λ c, c - 1) <$> HeapStore.ham s !! w
              else HeapStore.ham s !! w).
Proof.
  split; eexists; (split; [reflexivity|]); simpl; repeat split; intros w;
    rewrite HeapStoreFacts._decrement_lookup, occurrences_elements;
    destruct (decide (w ∈ T)); try done;
    match goal with |- _ <$> ?o = _ => destruct o; simpl; f_equal; lia end.
Qed.

(** ** The count invariant along a run of training operations *)

Lemma containing_cons w T trained :
  containing w (T :: trained) =
  (if decide (w ∈ T) then 1 else 0) + containing w trained.
Proof.
  unfold containing. rewrite filter_cons.
  destruct (decide (w ∈ T)); simpl length; lia.
Qed.

Lemma containing_bounds w trained :
  0 ≤ containing w trained ≤ Z.of_nat (length trained).
Proof.
  unfold containing. pose proof (length_filter (λ T : gset string, w ∈ T) trained).
  lia.
Qed.

Lemma containing_remove_one w T trained :
  T ∈ trained →
  containing w (remove_one T trained) =
  containing w trained - (if decide (w ∈ T) then 1 else 0).
Proof.
  induction trained as [|T' rest IH]; intros Hin.
  - by apply not_elem_of_nil in Hin.
  - simpl. destruct (decide (T' = T)) as [->|Hne].
    + rewrite containing_cons. lia.
    + rewrite !containing_cons, IH; [lia|].
      apply elem_of_cons in Hin as [->|?]; done.
Qed.

Lemma length_remove_one T trained :
  T ∈ trained →
  Z.of_nat (length (remove_one T trained)) = Z.of_nat (length trained) - 1.
Proof.
  induction trained as [|T' rest IH]; intros Hin.
  - by apply not_elem_of_nil in Hin.
  - simpl. destruct (decide (T' = T)) as [->|Hne]; [lia|].
    simpl length. rewrite Nat2Z.inj_succ, IH; [lia|].
    apply elem_of_cons in Hin as [->|?]; done.
Qed.

Lemma containing_member w T trained :
  T ∈ trained → w ∈ T → 1 ≤ containing w trained.
Proof.
  induction trained as [|T' rest IH]; intros Hin Hw.
  - by apply not_elem_of_nil in Hin.
  - rewrite containing_cons. pose proof (containing_bounds w rest).
    apply elem_of_cons in Hin as [->|Hin].
    + rewrite decide_True by done. lia.
    + specialize (IH Hin Hw). destruct (decide (w ∈ T')); lia.
Qed.

Lemma heap_trained_bounds spams hams s :
  heap_trained spams hams s →
  ∀ w, 0 ≤ HeapStore.hamcount s w ≤ HeapStore.nham s ∧
       0 ≤ HeapStore.spamcount s w ≤ HeapStore.nspam s.
Proof.
  intros (Hns & Hnh & Hw) w. destruct (Hw w) as [-> ->]. rewrite Hns, Hnh.
  pose proof (containing_bounds w spams). pose proof (containing_bounds w hams).
  lia.
Qed.

Lemma heap_trained_init : heap_trained [] [] HeapStore.init.
Proof. repeat split. Qed.

Lemma heap_trained_add_spam spams hams s T :
  heap_trained spams hams s →
  heap_trained (T :: spams) hams (HeapStore.add_spam (elements T) s).2.
Proof.
  intros (Hns & Hnh & Hw). run_monad. repeat split; simpl.
  - rewrite Hns. lia.
  - done.
  - unfold HeapStore.spamcount. simpl.
    rewrite HeapStoreFacts._increment_get, occurrences_elements, containing_cons.
    destruct (Hw w) as [Hs _]. unfold HeapStore.spamcount in Hs. lia.
  - apply Hw.
Qed.

Lemma heap_trained_add_ham spams hams s T :
  heap_trained spams hams s →
  heap_trained spams (T :: hams) (HeapStore.add_ham (elements T) s).2.
Proof.
  intros (Hns & Hnh & Hw). run_monad. repeat split; simpl.
  - done.
  - rewrite Hnh. lia.
  - apply Hw.
  - unfold HeapStore.hamcount. simpl.
    rewrite HeapStoreFacts._increment_get, occurrences_elements, containing_cons.
    destruct (Hw w) as [_ Hh]. unfold HeapStore.hamcount in Hh. lia.
Qed.

Lemma decrement_trained dct trained T w :
  T ∈ trained →
  dict_get dct w 0 = containing w trained →
  dict_get (HeapStore._decrement dct (elements T)) w 0 =
  containing w (remove_one T trained).
Proof.
  intros Hin Hget.
  rewrite HeapStoreFacts._decrement_get, occurrences_elements,
    containing_remove_one by done.
  destruct (dict_in w dct) eqn:Hd; [lia|].
  destruct (decide (w ∈ T)) as [HwT|]; [|].
  - pose proof (containing_member w T trained Hin HwT).
    unfold dict_get in Hget. unfold dict_in in Hd.
    apply bool_decide_eq_false in Hd.
    destruct (dct !! w) eqn:E; [exfalso; apply Hd; eauto|]. simpl in Hget. lia.
  - unfold dict_get in Hget. unfold dict_in in Hd.
    apply bool_decide_eq_false in Hd.
    destruct (dct !! w) eqn:E; [exfalso; apply Hd; eauto|]. simpl in Hget. lia.
Qed.

Lemma heap_trained_remove_spam spams hams s T :
  T ∈ spams →
  heap_trained spams hams s →
  heap_trained (remove_one T spams) hams (HeapStore.remove_spam (elements T) s).2.
Proof.
  intros Hin (Hns & Hnh & Hw). run_monad. repeat split; simpl.
  - rewrite Hns, length_remove_one by done. lia.
  - done.
  - unfold HeapStore.spamcount. simpl.
    apply decrement_trained; [done|]. apply Hw.
  - apply Hw.
Qed.

Lemma heap_trained_remove_ham spams hams s T :
  T ∈ hams →
  heap_trained spams hams s →
  heap_trained spams (remove_one T hams) (HeapStore.remove_ham (elements T) s).2.
Proof.
  intros Hin (Hns & Hnh & Hw). run_monad. repeat split; simpl.
  - done.
  - rewrite Hnh, length_remove_one by done. lia.
  - apply Hw.
  - unfold HeapStore.hamcount. simpl.
    apply decrement_trained; [done|]. apply Hw.
Qed.

Lemma heap_run_ops_trained ops : ∀ spams hams (s : HeapStore.t),
  heap_trained spams hams s →
  retracts_trained spams hams ops = true →
  (run_ops ops s).1 = Ok tt ∧
  ∃ spams' hams', heap_trained spams' hams' (run_ops ops s).2.
Proof.
  induction ops as [|o ops IH]; intros spams hams s Hinv Hops.
  - split; [done|]. by exists spams, hams.
  - simpl run_ops. rewrite run_bind.
    destruct o as [T|T|T|T]; simpl in Hops; simpl run_op.
    + apply (IH (T :: spams) hams); [|done].
      by apply heap_trained_add_spam.
    + apply (IH spams (T :: hams)); [|done].
      by apply heap_trained_add_ham.
    + apply andb_true_iff in Hops as [Hin Hops].
      apply bool_decide_eq_true in Hin.
      apply (IH (remove_one T spams) hams); [|done].
      by apply heap_trained_remove_spam.
    + apply andb_true_iff in Hops as [Hin Hops].
      apply bool_decide_eq_true in Hin.
      apply (IH spams (remove_one T hams)); [|done].
      by apply heap_trained_remove_ham.
Qed.

(** ** The durable store *)

Module SqliteStoreFacts.
Import SqliteStore.

(** [_upsert] adds [spam] and [ham] to the columns of a token once per visit,
    creating the row when there is none. *)
Lemma _upsert_columns tokens spam ham db w :
  column_spam (_upsert tokens spam ham db).2 w =
    column_spam db w + spam * occurrences w tokens ∧
  column_ham (_upsert tokens spam ham db).2 w =
    column_ham db w + ham * occurrences w tokens.
Proof.
  unfold _upsert, modify. simpl. revert db.
  induction tokens as [|k tokens IH]; intros db.
  - rewrite occurrences_nil. simpl. lia.
  - simpl foldl. rewrite occurrences_cons.
    destruct (IH (match db !! k with
                  | Some (s, h) => <[k:=(s + spam, h + ham)]> db
                  | None => <[k:=(spam, ham)]> db
                  end)) as [-> ->].
    unfold column_spam, column_ham.
    destruct (decide (k = w)) as [->|Hne].
    + destruct (db !! w) as [[s h]|] eqn:Hw; rewrite lookup_insert_eq; simpl; lia.
    + destruct (db !! k) as [[s h]|] eqn:Hk; rewrite lookup_insert_ne by done;
        lia.
Qed.

Lemma _upsert_ok tokens spam ham db : (_upsert tokens spam ham db).1 = Ok tt.
Proof. reflexivity. Qed.

(** The two reading methods report the columns, with negative values read as
    zero, and leave the table as it is. *)
Lemma get_nspam_nham_reports db :
  get_nspam_nham db = (Ok (nspam db, nham db), db).
Proof.
  unfold get_nspam_nham, get_token_counts, nspam, nham, spamcount, hamcount,
    column_spam, column_ham.
  run_monad. destruct (db !! DOC_COUNT_TOKEN) as [[s h]|]; simpl.
  - by rewrite lookup_insert_eq.
  - by rewrite lookup_empty.
Qed.

Lemma get_token_counts_reports db w :
  get_token_counts [w] db =
  (Ok (if dict_in w db then {[ w := (spamcount db w, hamcount db w) ]} else ∅), db).
Proof.
  unfold get_token_counts, spamcount, hamcount, column_spam, column_ham.
  run_monad. destruct (db !! w) as [[s h]|] eqn:Hw.
  - by rewrite (dict_in_Some _ _ _ Hw).
  - by rewrite (dict_in_None _ _ Hw).
Qed.

End SqliteStoreFacts.

(** C3. In the durable store, [remove_spam(T)] and [remove_ham(T)] raise
    [NameError] for every table and every [T], and leave the table as it was:
    [_update] names [keys], which nothing binds. After [add_spam({"a"})],
    [remove_spam({"a"})] raises and the counts stay at one. *)
Theorem sqlite_remove_raises (db : gmap string (Z * Z)) (T : list string) :
  SqliteStore.remove_spam T db = (Raise (NameError "keys"), db) ∧
  SqliteStore.remove_ham T db = (Raise (NameError "keys"), db) ∧
  let r := (SqliteStore.add_spam ["a"];; SqliteStore.remove_spam ["a"]) ∅ in
  r.1 = Raise (NameError "keys") ∧
  SqliteStore.spamcount (r.2) "a" = 1 ∧ SqliteStore.nspam (r.2) = 1.
Proof. repeat split. Qed.

Lemma sqlite_bounded_empty : sqlite_bounded ∅.
Proof.
  intros w. unfold SqliteStore.column_spam, SqliteStore.column_ham.
  rewrite !lookup_empty. simpl. lia.
Qed.

Lemma occurrences_singleton w k :
  occurrences w [k] = if decide (k = w) then 1 else 0.
Proof. rewrite occurrences_cons, occurrences_nil. lia. Qed.

Lemma sqlite_upsert_message_bounded db (T : gset string) (spam ham : Z) :
  0 ≤ spam ≤ 1 → 0 ≤ ham ≤ 1 →
  sqlite_bounded db →
  sqlite_bounded
    ((SqliteStore._upsert (elements T) spam ham;;
      SqliteStore._upsert [SqliteStore.DOC_COUNT_TOKEN] spam ham) db).2.
Proof.
  intros Hspam Hham Hb w. rewrite run_bind.
  destruct (SqliteStore._upsert (elements T) spam ham db) as [[[]|e] db1] eqn:E1;
    [|by pose proof (SqliteStoreFacts._upsert_ok (elements T) spam ham db) as H;
         rewrite E1 in H].
  assert (db1 = (SqliteStore._upsert (elements T) spam ham db).2) as ->
    by (by rewrite E1).
  set (D := SqliteStore.DOC_COUNT_TOKEN).
  destruct (SqliteStoreFacts._upsert_columns [D] spam ham
              (SqliteStore._upsert (elements T) spam ham db).2 w) as [-> ->].
  destruct (SqliteStoreFacts._upsert_columns [D] spam ham
              (SqliteStore._upsert (elements T) spam ham db).2 D) as [-> ->].
  destruct (SqliteStoreFacts._upsert_columns (elements T) spam ham db w)
    as [-> ->].
  destruct (SqliteStoreFacts._upsert_columns (elements T) spam ham db D)
    as [-> ->].
  rewrite !occurrences_singleton, !occurrences_elements.
  destruct (Hb w) as [Hs Hh]. fold D in Hs, Hh.
  destruct (decide (D = D)) as [_|]; [|done].
  destruct (decide (D = w)) as [<-|Hne]; [destruct (decide (D ∈ T)); nia|].
  destruct (decide (w ∈ T)), (decide (D ∈ T)); nia.
Qed.

Lemma sqlite_run_op_bounded (o : op) (db : gmap string (Z * Z)) :
  sqlite_bounded db → sqlite_bounded (run_op o db).2.
Proof.
  intros Hb. destruct o as [T|T|T|T]; simpl.
  - by apply (sqlite_upsert_message_bounded db T 1 0).
  - by apply (sqlite_upsert_message_bounded db T 0 1).
  - done.
  - done.
Qed.

Lemma sqlite_run_ops_bounded ops : ∀ db : gmap string (Z * Z),
  sqlite_bounded db → sqlite_bounded (run_ops ops db).2.
Proof.
  induction ops as [|o ops IH]; intros db Hb; [done|].
  simpl run_ops. rewrite run_bind.
  pose proof (sqlite_run_op_bounded o db Hb) as Hb'.
  destruct (run_op o db) as [[[]|e] db']; simpl in *; [by apply IH | done].
Qed.

(** C7. Start from a fresh store and run any sequence of training
    operations in which every remove retracts a token set passed to the
    corresponding add before and not removed since. In the volatile store the
    run returns normally and ends in a state where, for every token,
    [0 <= hamcount <= nham] and [0 <= spamcount <= nspam]. In the durable
    store the same bounds hold in the table the run leaves (there the run ends
    at its first remove, which raises). *)
Theorem counts_within_totals (ops : list op) :
  retracts_trained [] [] ops = true →
  (let r := run_ops ops HeapStore.init in
   r.1 = Ok tt ∧
   ∀ w, 0 ≤ HeapStore.hamcount (r.2) w ≤ HeapStore.nham (r.2) ∧
        0 ≤ HeapStore.spamcount (r.2) w ≤ HeapStore.nspam (r.2)) ∧
  (let r := run_ops ops (∅ : gmap string (Z * Z)) in
   ∀ w, 0 ≤ SqliteStore.hamcount (r.2) w ≤ SqliteStore.nham (r.2) ∧
        0 ≤ SqliteStore.spamcount (r.2) w ≤ SqliteStore.nspam (r.2)).
Proof.
  intros Hops. split.
  - destruct (heap_run_ops_trained ops [] [] HeapStore.init heap_trained_init Hops)
      as (Hok & spams & hams & Hinv).
    split; [done|]. by eapply heap_trained_bounds.
  - intros r w. pose proof (sqlite_run_ops_bounded ops ∅ sqlite_bounded_empty) as Hb.
    fold r in Hb. destruct (Hb w) as [Hs Hh].
    unfold SqliteStore.hamcount, SqliteStore.nham, SqliteStore.spamcount,
      SqliteStore.nspam, SqliteStore.hamcount, SqliteStore.spamcount.
    lia.
Qed.

Lemma counts_within_totals_witness :
  retracts_trained [] [] training_run = true ∧
  ∀ w, 0 ≤ HeapStore.hamcount (run_ops training_run HeapStore.init).2 w
         ≤ HeapStore.nham (run_ops training_run HeapStore.init).2 ∧
       0 ≤ HeapStore.spamcount (run_ops training_run HeapStore.init).2 w
         ≤ HeapStore.nspam (run_ops training_run HeapStore.init).2.
Proof.
  assert (retracts_trained [] [] training_run = true) as Hops
    by (vm_compute; reflexivity).
  split; [exact Hops|].
  exact (proj2 (proj1 (counts_within_totals training_run Hops))).
Defined.

(** * Properties of the classifier *)

Lemma Qeq_bool_inject_Z_0 (n : Z) : Qeq_bool (inject_Z n) 0 = (n =? 0).
Proof.
  unfold Qeq_bool, inject_Z. simpl. by destruct n.
Qed.

Lemma py_or_one_nonzero (n : Z) : py_or_one n ≠ 0.
Proof. unfold py_or_one. destruct (Z.eqb_spec n 0); lia. Qed.

Lemma py_div_nonzero {St} (x : Q) (n : Z) (s : St) :
  n ≠ 0 → py_div x (inject_Z n) s = (Ok (x / inject_Z n)%Q, s).
Proof.
  intros Hn. unfold py_div. rewrite Qeq_bool_inject_Z_0.
  by destruct (Z.eqb_spec n 0).
Qed.

Lemma py_div_zero {St} (x y : Q) (s : St) :
  (y == 0)%Q → py_div x y s = (Raise ZeroDivisionError, s).
Proof.
  intros Hy. unfold py_div. apply Qeq_bool_iff in Hy. by rewrite Hy.
Qed.

Section probability_facts.
Context {St : Type} `{!Store St}.
Variable self : Classifier.

(** With both counts zero the two ratios are zero, and dividing one by
    their sum raises: [probability] never returns. *)
Lemma probability_0_0 (s s' : St) (nspam nham : Z) :
  get_nspam_nham s = (Ok (nspam, nham), s') →
  probability self 0 0 s =
  (if nham <? 0 then
     Raise (AssertionError "Token seen in more ham than ham trained.")
   else if nspam <? 0 then
     Raise (AssertionError "Token seen in more spam than spam trained.")
   else Raise ZeroDivisionError, s').
Proof.
  intros Hget. unfold probability. rewrite run_bind, Hget.
  assert (∀ n, (0 <=? py_or_one n) = negb (n <? 0)) as Hsign.
  { intros n. unfold py_or_one.
    destruct (Z.eqb_spec n 0), (Z.leb_spec 0 n), (Z.ltb_spec n 0);
      try lia; try done; destruct (Z.leb_spec 0 1); (done || lia). }
  rewrite run_bind, Hsign. destruct (nham <? 0); [done|]. simpl.
  rewrite run_bind, Hsign. destruct (nspam <? 0); [done|]. simpl.
  rewrite run_bind, py_div_nonzero by apply py_or_one_nonzero.
  rewrite run_bind, py_div_nonzero by apply py_or_one_nonzero.
  rewrite run_bind, py_div_zero; [done|].
  unfold Qdiv. ring.
Qed.

End probability_facts.

(** C2. [probability(0, 0)] does not return [unknown_token_prob]: in every
    state of either store it raises. With both counts zero, [hamratio] and
    [spamratio] are zero and [spamratio / (hamratio + spamratio)] divides by
    zero; in a volatile store whose totals went negative the assertion on
    the counts fails first. *)
Theorem probability_0_0_raises (self : Classifier) :
  (∀ s : HeapStore.t,
     probability self 0 0 s =
     (if HeapStore.nham s <? 0 then
        Raise (AssertionError "Token seen in more ham than ham trained.")
      else if HeapStore.nspam s <? 0 then
        Raise (AssertionError "Token seen in more spam than spam trained.")
      else Raise ZeroDivisionError, s)) ∧
  (∀ db : gmap string (Z * Z),
     probability self 0 0 db = (Raise ZeroDivisionError, db)) ∧
  probability self 0 0 HeapStore.init = (Raise ZeroDivisionError, HeapStore.init).
Proof.
  split; [|split].
  - intros s. by apply probability_0_0.
  - intros db.
    rewrite (probability_0_0 self db db (SqliteStore.nspam db) (SqliteStore.nham db))
      by apply SqliteStoreFacts.get_nspam_nham_reports.
    unfold SqliteStore.nham, SqliteStore.nspam, SqliteStore.hamcount,
      SqliteStore.spamcount.
    destruct (Z.ltb_spec (Z.max 0 (SqliteStore.column_ham db SqliteStore.DOC_COUNT_TOKEN)) 0);
      [lia|].
    destruct (Z.ltb_spec (Z.max 0 (SqliteStore.column_spam db SqliteStore.DOC_COUNT_TOKEN)) 0);
      [lia|done].
  - by rewrite (probability_0_0 self HeapStore.init HeapStore.init 0 0).
Qed.

(** The pair of zero counts is what the volatile store reports for a token
    trained once and then retracted; classifying it raises. *)
Lemma getclues_after_retraction_raises :
  let s := ((HeapStore.add_spam ["a"];; HeapStore.remove_spam ["a"]) HeapStore.init).2 in
  (_getclues default_classifier ["a"] s).1 = Raise ZeroDivisionError.
Proof. vm_compute. reflexivity. Qed.

Section probability_asserts.
Context {St : Type} `{!Store St}.
Variable self : Classifier.

(** The assertions compare the counts with the totals after a zero total has
    been replaced by one. *)
Lemma probability_asserts_ham (s s' : St) (nspam nham spamcount hamcount : Z) :
  get_nspam_nham s = (Ok (nspam, nham), s') →
  py_or_one nham < hamcount →
  probability self spamcount hamcount s =
  (Raise (AssertionError "Token seen in more ham than ham trained."), s').
Proof.
  intros Hget Hlt. unfold probability. rewrite run_bind, Hget, run_bind.
  by destruct (Z.leb_spec hamcount (py_or_one nham)); [lia|].
Qed.

Lemma probability_asserts_spam (s s' : St) (nspam nham spamcount hamcount : Z) :
  get_nspam_nham s = (Ok (nspam, nham), s') →
  hamcount ≤ py_or_one nham →
  py_or_one nspam < spamcount →
  probability self spamcount hamcount s =
  (Raise (AssertionError "Token seen in more spam than spam trained."), s').
Proof.
  intros Hget Hle Hlt. unfold probability. rewrite run_bind, Hget, run_bind.
  destruct (Z.leb_spec hamcount (py_or_one nham)); [|lia]. simpl.
  rewrite run_bind.
  by destruct (Z.leb_spec spamcount (py_or_one nspam)); [lia|].
Qed.

End probability_asserts.

(** C4. With a total of zero the check is missed: on a fresh volatile store
    ([nspam = nham = 0]) [probability(0, 1)] has [hamcount > nham] and
    [probability(1, 0)] has [spamcount > nspam], yet both return a value,
    [9/58] and [49/58], and no error is raised. The same happens inside
    [_getclues] after [add_ham({"a"})] and [remove_ham({})]. *)
Theorem probability_zero_total_not_checked :
  HeapStore.nham HeapStore.init < 1 ∧
  probability default_classifier 0 1 HeapStore.init =
    (Ok (22500 # 145000), HeapStore.init) ∧
  HeapStore.nspam HeapStore.init < 1 ∧
  probability default_classifier 1 0 HeapStore.init =
    (Ok (122500 # 145000), HeapStore.init) ∧
  let s := ((HeapStore.add_ham ["a"];; HeapStore.remove_ham []) HeapStore.init).2 in
  HeapStore.nham s < HeapStore.hamcount s "a" ∧
  (_getclues default_classifier ["a"] s).1 = Ok [(22500 # 145000, "a")].
Proof. vm_compute. repeat split. Qed.

(** C1. [_getclues] keeps the weakest clues, not the strongest. With
    [max_discriminators = 1] and two informative tokens, ["a"] at distance
    [50/104.5] from one half and ["b"] at distance [0.5/1.45], the clue that
    is kept is the one for ["b"]: the list is sorted by ascending distance and
    its first [max_discriminators] entries are returned. *)
Theorem getclues_keeps_weakest :
  let counts : gmap string (Z * Z) := {[ "a" := (10, 0); "b" := (1, 0) ]} in
  let da := 5000000000 # 10450000000 in
  let pa := 1022500000 # 1045000000 in
  let db := 50000000 # 145000000 in
  let pb := 12250000 # 14500000 in
  (get_token_counts ["a"; "b"] two_token_store).1 = Ok counts ∧
  (_worddistanceget one_discriminator counts "a" two_token_store).1
    = Ok (da, pa, "a") ∧
  (_worddistanceget one_discriminator counts "b" two_token_store).1
    = Ok (db, pb, "b") ∧
  (minimum_prob_strength one_discriminator <= db)%Q ∧
  (db < da)%Q ∧
  (_getclues one_discriminator ["a"; "b"] two_token_store).1 = Ok [(pb, "b")].
Proof. vm_compute. repeat split; congruence. Qed.

(** The same with the default attributes ([max_discriminators = 150]): of
    151 informative tokens, ["t151"] is the one farthest from one half, and it
    is the one that is dropped. *)
Lemma getclues_default_drops_strongest : default_drops_strongest = true.
Proof. vm_compute. reflexivity. Qed.

(** ** Classifying without clues *)

Lemma py_set_nil : py_set [] = [].
Proof. unfold py_set. simpl. apply elements_empty. Qed.

Lemma math_log_1 : math_log 1 = Ok 0%R.
Proof.
  unfold math_log. destruct (Rlt_dec 0 1) as [_|Hn]; [|exfalso; lra].
  by rewrite ln_1.
Qed.

Section spamprob_facts.
Context {St : Type} `{!Store St}.
Variable self : Classifier.

Lemma spamprob_no_clues (tokens : list string) (evidence : bool) (s : St) :
  (_getclues self tokens s).1 = Ok [] →
  (spamprob self tokens evidence s).1 = Ok (neutral evidence).
Proof.
  intros Hclues. unfold spamprob. rewrite run_bind.
  destruct (_getclues self tokens s) as [[clues|e] s']; simpl in Hclues;
    [|done].
  injection Hclues as ->. run_monad. rewrite math_log_1. simpl.
  replace (0 + 0 * LN2)%R with 0%R by lra.
  by destruct evidence.
Qed.

Lemma getclues_nil (s s' : St) (counts : gmap string (Z * Z)) :
  get_token_counts [] s = (Ok counts, s') →
  _getclues self [] s = (Ok [], s').
Proof.
  intros Hget. unfold _getclues. rewrite py_set_nil, run_bind, Hget.
  simpl for_each. rewrite run_bind, run_ret, run_ret.
  unfold py_slice_to. simpl py_sort. rewrite !take_nil.
  by destruct (max_discriminators self <? 0).
Qed.

End spamprob_facts.

(** C9. In either store, whenever [_getclues] yields no clues [spamprob]
    returns exactly one half (with the evidence [("*H*", 0.0), ("*S*", 0.0)]
    when evidence is asked for); and for every state of either store,
    [spamprob] of the empty token stream is exactly one half. *)
Theorem spamprob_no_clues_is_half
    (self : Classifier) (tokens : list string) (evidence : bool)
    (s : HeapStore.t) (db : gmap string (Z * Z)) :
  ((_getclues self tokens s).1 = Ok [] →
   (spamprob self tokens evidence s).1 = Ok (neutral evidence)) ∧
  ((_getclues self tokens db).1 = Ok [] →
   (spamprob self tokens evidence db).1 = Ok (neutral evidence)) ∧
  (spamprob self [] evidence s).1 = Ok (neutral evidence) ∧
  (spamprob self [] evidence db).1 = Ok (neutral evidence).
Proof.
  split; [apply spamprob_no_clues|]. split; [apply spamprob_no_clues|].
  split; apply spamprob_no_clues.
  - by rewrite (getclues_nil self s s ∅).
  - by rewrite (getclues_nil self db db ∅).
Qed.

(** A token the store has never seen sits at the neutral [0.5] and is no
    clue: the message scores one half. *)
Lemma spamprob_no_clues_is_half_witness :
  (_getclues default_classifier ["unseen"] HeapStore.init).1 = Ok [] ∧
  (spamprob default_classifier ["unseen"] false HeapStore.init).1
    = Ok (Prob 0.5).
Proof.
  assert ((_getclues default_classifier ["unseen"] HeapStore.init).1 = Ok [])
    as Hclues by (vm_compute; reflexivity).
  split; [exact Hclues|].
  exact (proj1 (spamprob_no_clues_is_half default_classifier ["unseen"] false
                  HeapStore.init ∅) Hclues).
Defined.

(** ** Classification does not write to the store *)

Lemma read_only_ret {St A} (a : A) : read_only (mret a : M St A).
Proof. by intros s. Qed.

Lemma read_only_raise {St A} (e : exn) : read_only (raise e : M St A).
Proof. by intros s. Qed.

Lemma read_only_lift {St A} (r : result A) : read_only (lift r : M St A).
Proof. by intros s. Qed.

Lemma read_only_gets {St A} (f : St → A) : read_only (gets f).
Proof. by intros s. Qed.

Lemma read_only_bind {St A B} (m : M St A) (f : A → M St B) :
  read_only m → (∀ a, read_only (f a)) → read_only (m ≫= f).
Proof.
  intros Hm Hf s. rewrite run_bind. specialize (Hm s).
  destruct (m s) as [[a|e] s']; simpl in Hm; subst s'; [apply Hf | done].
Qed.

Lemma read_only_py_assert {St} (cond : bool) (msg : string) :
  read_only (py_assert cond msg : M St unit).
Proof. by destruct cond. Qed.

Lemma read_only_py_div {St} (x y : Q) : read_only (py_div x y : M St Q).
Proof. unfold py_div. by destruct (Qeq_bool y 0). Qed.

Lemma read_only_for_each {St A B} (body : B → A → M St B) (xs : list A) :
  (∀ acc x, read_only (body acc x)) → ∀ acc, read_only (for_each body xs acc).
Proof.
  intros Hbody. induction xs as [|x xs IH]; intros acc; simpl.
  - apply read_only_ret.
  - apply read_only_bind; [apply Hbody | apply IH].
Qed.

Section classifier_reads.
Context {St : Type} `{!Store St}.
Variable self : Classifier.
Hypothesis get_nspam_nham_reads : read_only get_nspam_nham.
Hypothesis get_token_counts_reads : ∀ tokens, read_only (get_token_counts tokens).

Lemma probability_read_only spamcount hamcount :
  read_only (probability self spamcount hamcount).
Proof.
  unfold probability. apply read_only_bind; [done|]. intros [nspam nham].
  repeat (apply read_only_bind;
          [apply read_only_py_assert || apply read_only_py_div | intros ?]).
  apply read_only_py_div.
Qed.

Lemma _worddistanceget_read_only counts token :
  read_only (_worddistanceget self counts token).
Proof.
  unfold _worddistanceget. apply read_only_bind.
  - destruct (counts !! token) as [[spamcount hamcount]|].
    + apply probability_read_only.
    + apply read_only_ret.
  - intros prob. apply read_only_ret.
Qed.

Lemma _getclues_read_only tokens : read_only (_getclues self tokens).
Proof.
  unfold _getclues. apply read_only_bind; [done|]. intros counts.
  apply read_only_bind; [|intros clues; apply read_only_ret].
  apply read_only_for_each. intros clues token.
  apply read_only_bind; [apply _worddistanceget_read_only|]. intros tup.
  destruct (Qle_bool _ _); apply read_only_ret.
Qed.

Lemma spamprob_read_only tokens evidence :
  read_only (spamprob self tokens evidence).
Proof.
  unfold spamprob. apply read_only_bind; [apply _getclues_read_only|].
  intros clues.
  destruct (foldl spamprob_step (1%R, 0, 1%R, 0) clues) as [[[S_ Sexp] H_] Hexp].
  apply read_only_bind; [apply read_only_lift|]. intros lnS.
  apply read_only_bind; [apply read_only_lift|]. intros lnH.
  apply read_only_bind.
  - destruct (negb _); [|apply read_only_ret].
    apply read_only_bind; [apply read_only_lift|]. intros qS.
    apply read_only_bind; [apply read_only_lift|]. intros qH.
    apply read_only_ret.
  - intros [[prob S1] H1]. destruct evidence; apply read_only_ret.
Qed.

End classifier_reads.

Lemma heap_get_nspam_nham_read_only : read_only HeapStore.get_nspam_nham.
Proof. apply read_only_gets. Qed.

Lemma heap_get_token_counts_read_only tokens :
  read_only (HeapStore.get_token_counts tokens).
Proof. apply read_only_gets. Qed.

Lemma sqlite_get_token_counts_read_only tokens :
  read_only (SqliteStore.get_token_counts tokens).
Proof. apply read_only_gets. Qed.

Lemma sqlite_get_nspam_nham_read_only : read_only SqliteStore.get_nspam_nham.
Proof.
  unfold SqliteStore.get_nspam_nham.
  apply read_only_bind; [apply sqlite_get_token_counts_read_only|].
  intros counts. destruct (counts !! _); apply read_only_ret.
Qed.

(** C10. [spamprob] is read-only: for every state of the volatile store and
    every table of the durable store, every token stream, with or without
    evidence, and whether the call returns or raises, the store after the call
    is the store before it: every token's counts and both totals are
    unchanged. *)
Theorem spamprob_leaves_store_unchanged
    (self : Classifier) (tokens : list string) (evidence : bool) :
  (∀ s : HeapStore.t, (spamprob self tokens evidence s).2 = s) ∧
  (∀ db : gmap string (Z * Z), (spamprob self tokens evidence db).2 = db).
Proof.
  split.
  - intros s. apply spamprob_read_only.
    + apply heap_get_nspam_nham_read_only.
    + apply heap_get_token_counts_read_only.
  - intros db. apply spamprob_read_only.
    + apply sqlite_get_nspam_nham_read_only.
    + apply sqlite_get_token_counts_read_only.
Qed.

(** * Properties of [chi2Q] *)

Module Chi2Facts.
Local Open Scope R_scope.

Lemma series_term_succ (n : nat) (m : R) :
  series_term (S n) m = series_term n m * (m / INR (S n)).
Proof.
  unfold series_term. rewrite fact_simpl, mult_INR. simpl pow.
  field. split; [apply not_0_INR; lia | apply INR_fact_neq_0].
Qed.

Lemma series_term_nonneg (n : nat) (m : R) : 0 <= m → 0 <= series_term n m.
Proof.
  intros Hm. unfold series_term. apply Rmult_le_pos.
  - by apply pow_le.
  - left. apply Rinv_0_lt_compat. apply INR_fact_lt_0.
Qed.

(** The loop, started after round [k], reaches round [k + n]. *)
Lemma chi2Q_loop_series (m e : R) (n : nat) : ∀ k : nat,
  chi2Q_loop m ((λ i : nat, (Z.of_nat i + 1)%Z) <$> seq k n)
    (e * series_sum k m) (e * series_term k m) =
  (e * series_sum (k + n) m, e * series_term (k + n) m).
Proof.
  unfold chi2Q_loop. induction n as [|n IH]; intros k.
  - simpl. by rewrite Nat.add_0_r.
  - simpl seq. rewrite fmap_cons. simpl foldl.
    replace (IZR (Z.of_nat k + 1)) with (INR (S k))
      by (rewrite S_INR, plus_IZR, <- INR_IZR_INZ; reflexivity).
    replace (e * series_term k m * (m / INR (S k)))
      with (e * series_term (S k) m) by (rewrite series_term_succ; ring).
    replace (e * series_sum k m + e * series_term (S k) m)
      with (e * series_sum (S k) m) by (simpl; ring).
    rewrite IH. by replace (k + S n)%nat with (S k + n)%nat by lia.
Qed.

Lemma overflow_bound_large : 9 < overflow_bound.
Proof.
  unfold overflow_bound.
  assert (1 <= 2 ^ 970) as H1 by (apply pow_R1_Rle; lra).
  assert (9 < 2 ^ 54 - 1) as H2.
  { replace 54%nat with (27 + 27)%nat by reflexivity. rewrite pow_add.
    assert (2 ^ 27 = 134217728) as -> by (simpl; lra). lra. }
  nra.
Qed.

(** [math.exp] returns on every argument up to two. *)
Lemma math_exp_returns (x : R) : x <= 2 → math_exp x = Ok (exp x).
Proof.
  intros Hx. unfold math_exp.
  destruct (Rle_dec overflow_bound (exp x)) as [Hover|]; [|done].
  exfalso. pose proof overflow_bound_large as Hlarge.
  assert (exp x <= exp 2) as Hle.
  { destruct Hx as [Hx| ->]; [left; by apply exp_increasing | lra]. }
  assert (exp 2 <= 9) as H9.
  { replace 2 with (1 + 1) by lra. rewrite exp_plus.
    pose proof exp_le_3 as H3. pose proof (exp_pos 1) as Hp. nra. }
  lra.
Qed.

(** For an even [v], where [math.exp] returns, [chi2Q] returns the series
    after [v // 2 - 1] rounds, capped at one. *)
Lemma chi2Q_even (x2 : R) (v : Z) :
  Z.land v 1 = 0%Z → - 4 <= x2 →
  chi2Q x2 v = Ok (py_min (chi2Q_series (Z.to_nat (v `div` 2 - 1)) (x2 / 2)) 1).
Proof.
  intros Hv Hx2. unfold chi2Q. rewrite Hv. simpl negb. cbv iota.
  rewrite math_exp_returns by lra.
  unfold seqZ.
  pose proof (chi2Q_loop_series (x2 / 2) (exp (- (x2 / 2)))
                (Z.to_nat (v `div` 2 - 1)) 0) as Hloop.
  simpl series_sum in Hloop.
  replace (exp (- (x2 / 2)) * series_term 0 (x2 / 2)) with (exp (- (x2 / 2)))
    in Hloop by (unfold series_term; simpl; field).
  rewrite Hloop. reflexivity.
Qed.


(** For an even [v] of at most two the loop does not run. *)
Lemma chi2Q_no_loop (x2 : R) (v : Z) :
  Z.land v 1 = 0%Z → (v ≤ 2)%Z →
  chi2Q x2 v = match math_exp (- (x2 / 2)) with
               | Raise e => Raise e
               | Ok e => Ok (py_min e 1)
               end.
Proof.
  intros Hv Hle. unfold chi2Q. rewrite Hv. simpl negb. cbv iota.
  assert (v `div` 2 ≤ 1)%Z as Hdiv by (apply Z.div_le_upper_bound; lia).
  unfold seqZ. replace (Z.to_nat (v `div` 2 - 1)) with 0%nat by lia.
  by destruct (math_exp (- (x2 / 2))).
Qed.

End Chi2Facts.




(** * Further properties of the stores *)

Lemma occurrences_py_set (w : string) (tokens : list string) :
  occurrences w (py_set tokens) = if decide (w ∈ tokens) then 1 else 0.
Proof.
  unfold py_set. rewrite occurrences_elements.
  destruct (decide (w ∈ (list_to_set tokens : gset string))) as [H|H],
           (decide (w ∈ tokens)) as [H'|H']; try done;
    rewrite elem_of_list_to_set in H; done.
Qed.

Lemma increment_set_lookup (dct : gmap string Z) (T : gset string) (w : string) :
  HeapStore._increment dct (elements T) !! w =
  if decide (w ∈ T) then Some (dict_get dct w 0 + 1) else dct !! w.
Proof.
  rewrite HeapStoreFacts._increment_lookup, occurrences_elements.
  destruct (decide (w ∈ elements T)) as [H|H], (decide (w ∈ T)) as [H'|H'];
    try done; rewrite elem_of_elements in H; done.
Qed.

(** X1. In the volatile store [add_spam(T)], for a token set [T], returns
    normally, makes the spam count of every token of [T] one more than what
    was reported for it (creating the entry when there was none), leaves every
    other spam entry and the whole ham dictionary alone, and adds one to
    [nspam] only; [add_ham(T)] does the same on the ham side. *)
Theorem heap_add_counts_once (s : HeapStore.t) (T : gset string) :
  (∃ s', HeapStore.add_spam (elements T) s = (Ok tt, s') ∧
         HeapStore.nspam s' = HeapStore.nspam s + 1 ∧
         HeapStore.nham s' = HeapStore.nham s ∧
         HeapStore.ham s' = HeapStore.ham s ∧
         ∀ w, HeapStore.spam s' !! w =
              if decide (w ∈ T) then Some (HeapStore.spamcount s w + 1)
              else HeapStore.spam s !! w) ∧
  (∃ s', HeapStore.add_ham (elements T) s = (Ok tt, s') ∧
         HeapStore.nham s' = HeapStore.nham s + 1 ∧
         HeapStore.nspam s' = HeapStore.nspam s ∧
         HeapStore.spam s' = HeapStore.spam s ∧
         ∀ w, HeapStore.ham s' !! w =
              if decide (w ∈ T) then Some (HeapStore.hamcount s w + 1)
              else HeapStore.ham s !! w).
Proof.
  split; eexists; (split; [reflexivity|]); simpl; repeat split; intros w;
    apply increment_set_lookup.
Qed.

Lemma heap_get_token_counts_fold (spam ham : gmap string Z) (tokens : list string) :
  ∀ (d : gmap string (Z * Z)) (w : string),
    foldl (λ d w,
             if dict_in w spam || dict_in w ham
             then <[w := (dict_get spam w 0, dict_get ham w 0)]> d
             else d) d tokens !! w =
    if decide (w ∈ tokens) then
      if dict_in w spam || dict_in w ham
      then Some (dict_get spam w 0, dict_get ham w 0)
      else d !! w
    else d !! w.
Proof.
  induction tokens as [|k tokens IH]; intros d w; [done|].
  simpl foldl. rewrite IH.
  destruct (decide (w ∈ tokens)) as [Hin|Hin].
  - rewrite decide_True by (apply elem_of_cons; by right).
    destruct (dict_in w spam || dict_in w ham) eqn:Hw; [done|].
    destruct (decide (k = w)) as [->|Hne]; [by rewrite Hw|].
    destruct (dict_in k spam || dict_in k ham); [|done].
    by rewrite lookup_insert_ne.
  - destruct (decide (k = w)) as [->|Hne].
    + rewrite decide_True by (apply elem_of_cons; by left).
      destruct (dict_in w spam || dict_in w ham); [|done].
      by rewrite lookup_insert_eq.
    + rewrite decide_False
        by (intros [?|?]%elem_of_cons; [by subst | done]).
      destruct (dict_in k spam || dict_in k ham); [|done].
      by rewrite lookup_insert_ne.
Qed.

(** X2. In the volatile store [get_token_counts(tokens)] returns normally,
    leaves the store alone, and its result has an entry exactly for the
    requested tokens that have an entry in the spam or in the ham dictionary:
    the pair of the two counts, the missing one read as zero. A token in
    neither dictionary is left out, not reported as [(0, 0)]. *)
Theorem heap_get_token_counts_spec (s : HeapStore.t) (tokens : list string) :
  ∃ d, HeapStore.get_token_counts tokens s = (Ok d, s) ∧
       ∀ w, d !! w =
            if decide (w ∈ tokens ∧
                       (is_Some (HeapStore.spam s !! w) ∨
                        is_Some (HeapStore.ham s !! w)))
            then Some (HeapStore.spamcount s w, HeapStore.hamcount s w)
            else None.
Proof.
  eexists. split; [reflexivity|]. intros w. simpl.
  rewrite heap_get_token_counts_fold, lookup_empty.
  unfold HeapStore.spamcount, HeapStore.hamcount.
  destruct (decide (w ∈ tokens)) as [Hin|Hin].
  - destruct (dict_in w (HeapStore.spam s) || dict_in w (HeapStore.ham s)) eqn:Hw.
    + rewrite decide_True; [done|]. split; [done|].
      apply orb_true_iff in Hw as [Hw|Hw]; apply dict_in_spec in Hw; auto.
    + rewrite decide_False; [done|]. intros [_ [Hs|Hs]];
        apply dict_in_spec in Hs; rewrite Hs in Hw; simpl in Hw;
        [done | by rewrite orb_true_r in Hw].
  - rewrite decide_False; [done|]. by intros [? _].
Qed.

Lemma increment_commute (dct : gmap string Z) (T1 T2 : list string) :
  HeapStore._increment (HeapStore._increment dct T1) T2 =
  HeapStore._increment (HeapStore._increment dct T2) T1.
Proof.
  apply map_eq. intros w.
  rewrite !HeapStoreFacts._increment_lookup, !HeapStoreFacts._increment_get.
  destruct (decide (w ∈ T1)), (decide (w ∈ T2)); try done.
  - f_equal. lia.
  - rewrite (occurrences_not_in w T2) by done. f_equal. lia.
  - rewrite (occurrences_not_in w T1) by done. f_equal. lia.
Qed.

(** X3. In the volatile store the order of training does not matter: two
    [add_spam] calls, two [add_ham] calls, or an [add_spam] and an [add_ham]
    call, leave the same store in either order, for any token sequences. *)
Theorem heap_adds_commute (s : HeapStore.t) (T1 T2 : list string) :
  (HeapStore.add_spam T1;; HeapStore.add_spam T2) s =
    (HeapStore.add_spam T2;; HeapStore.add_spam T1) s ∧
  (HeapStore.add_ham T1;; HeapStore.add_ham T2) s =
    (HeapStore.add_ham T2;; HeapStore.add_ham T1) s ∧
  (HeapStore.add_spam T1;; HeapStore.add_ham T2) s =
    (HeapStore.add_ham T2;; HeapStore.add_spam T1) s.
Proof.
  run_monad. repeat split; f_equal.
  - by rewrite increment_commute.
  - by rewrite increment_commute.
Qed.

(** X4. [Classifier.add_spam] counts presence, not occurrences: whatever the
    number of times a token occurs in the stream, the spam count the volatile
    store reports for it goes up by exactly one, the counts of tokens not in
    the stream and all ham counts stay, and [nspam] goes up by one;
    [Classifier.add_ham] likewise. *)
Theorem classifier_add_counts_presence
    (s : HeapStore.t) (tokens : list string) (w : string) :
  let s1 := (Classifier_add_spam tokens s).2 in
  let s2 := (Classifier_add_ham tokens s).2 in
  (Classifier_add_spam tokens s).1 = Ok tt ∧
  HeapStore.spamcount s1 w =
    HeapStore.spamcount s w + (if decide (w ∈ tokens) then 1 else 0) ∧
  HeapStore.hamcount s1 w = HeapStore.hamcount s w ∧
  HeapStore.nspam s1 = HeapStore.nspam s + 1 ∧
  HeapStore.nham s1 = HeapStore.nham s ∧
  (Classifier_add_ham tokens s).1 = Ok tt ∧
  HeapStore.hamcount s2 w =
    HeapStore.hamcount s w + (if decide (w ∈ tokens) then 1 else 0) ∧
  HeapStore.spamcount s2 w = HeapStore.spamcount s w ∧
  HeapStore.nham s2 = HeapStore.nham s + 1 ∧
  HeapStore.nspam s2 = HeapStore.nspam s.
Proof.
  unfold Classifier_add_spam, Classifier_add_ham. simpl.
  unfold HeapStore.spamcount, HeapStore.hamcount. simpl.
  rewrite !HeapStoreFacts._increment_get, !occurrences_py_set.
  repeat split.
Qed.

(** X5. When every token of [T] already has an entry in the spam dictionary,
    [add_spam(T)] followed by [remove_spam(T)], and also [remove_spam(T)]
    followed by [add_spam(T)], return normally and leave the volatile store
    exactly as it was, dictionaries included. *)
Theorem heap_round_trip_exact (s : HeapStore.t) (T : list string) :
  (∀ w, w ∈ T → is_Some (HeapStore.spam s !! w)) →
  (HeapStore.add_spam T;; HeapStore.remove_spam T) s = (Ok tt, s) ∧
  (HeapStore.remove_spam T;; HeapStore.add_spam T) s = (Ok tt, s).
Proof.
  intros Hin. destruct s as [spam ham nspam nham]. simpl in Hin. run_monad.
  split; f_equal; f_equal; try lia; apply map_eq; intros w.
  - rewrite HeapStoreFacts._decrement_lookup, HeapStoreFacts._increment_lookup.
    destruct (decide (w ∈ T)) as [Hw|Hw].
    + destruct (Hin w Hw) as [c Hc]. unfold dict_get. rewrite Hc. simpl.
      f_equal. lia.
    + rewrite occurrences_not_in by done.
      destruct (spam !! w); simpl; f_equal; lia.
  - rewrite HeapStoreFacts._increment_lookup, HeapStoreFacts._decrement_get.
    destruct (decide (w ∈ T)) as [Hw|Hw].
    + destruct (Hin w Hw) as [c Hc]. rewrite (dict_in_Some _ _ _ Hc).
      unfold dict_get. rewrite Hc. simpl. f_equal. lia.
    + rewrite HeapStoreFacts._decrement_lookup, occurrences_not_in by done.
      destruct (spam !! w); simpl; f_equal; lia.
Qed.

Lemma heap_round_trip_exact_witness :
  (∀ w, w ∈ ["a"; "b"] → is_Some (HeapStore.spam two_token_store !! w)) ∧
  (HeapStore.add_spam ["a"; "b"];; HeapStore.remove_spam ["a"; "b"])
    two_token_store = (Ok tt, two_token_store).
Proof.
  assert (∀ w, w ∈ ["a"; "b"] → is_Some (HeapStore.spam two_token_store !! w))
    as Hin.
  { intros w Hw. apply elem_of_cons in Hw as [->|Hw]; [by eexists|].
    apply elem_of_cons in Hw as [->|Hw]; [by eexists|].
    by apply not_elem_of_nil in Hw. }
  split; [exact Hin|].
  exact (proj1 (heap_round_trip_exact two_token_store ["a"; "b"] Hin)).
Defined.

(** ** Further properties of the durable store *)

Lemma sqlite_upsert_rows (tokens : list string) (spam ham : Z)
    (db : gmap string (Z * Z)) (w : string) :
  is_Some ((SqliteStore._upsert tokens spam ham db).2 !! w) ↔
  w ∈ tokens ∨ is_Some (db !! w).
Proof.
  unfold SqliteStore._upsert, modify. simpl. revert db.
  induction tokens as [|k tokens IH]; intros db.
  - simpl. split; [by right | intros [H|H]; [by apply not_elem_of_nil in H | done]].
  - simpl foldl. rewrite IH, elem_of_cons.
    destruct (decide (k = w)) as [->|Hne].
    + split; [by left; left|]. intros _. right.
      destruct (db !! w) as [[s h]|]; rewrite lookup_insert_eq; by eexists.
    + assert (∀ x, (<[k:=x]> db) !! w = db !! w) as Hk
        by (intros x; by rewrite lookup_insert_ne).
      destruct (db !! k) as [[s h]|]; rewrite Hk;
        (split; [intros [?|?]; [left; by right | by right]
                | intros [[?|?]|?]; [by subst | by left | by right]]).
Qed.

(** X6. In the durable store [add_spam(T)], for a token set [T], returns
    normally, adds one to the spam column of every token of [T] and one to
    the spam column of the reserved row [DOC_COUNT_TOKEN] (two, when [T]
    itself contains the reserved token), creates the rows that are missing,
    and changes no ham column; [add_ham(T)] does the same on the ham
    columns. *)
Theorem sqlite_add_columns
    (db : gmap string (Z * Z)) (T : gset string) (w : string) :
  let D := SqliteStore.DOC_COUNT_TOKEN in
  let hit := (if decide (w ∈ T) then 1 else 0) + (if decide (w = D) then 1 else 0) in
  let db1 := (SqliteStore.add_spam (elements T) db).2 in
  let db2 := (SqliteStore.add_ham (elements T) db).2 in
  (SqliteStore.add_spam (elements T) db).1 = Ok tt ∧
  SqliteStore.column_spam db1 w = SqliteStore.column_spam db w + hit ∧
  SqliteStore.column_ham db1 w = SqliteStore.column_ham db w ∧
  (is_Some (db1 !! w) ↔ w ∈ T ∨ w = D ∨ is_Some (db !! w)) ∧
  (SqliteStore.add_ham (elements T) db).1 = Ok tt ∧
  SqliteStore.column_ham db2 w = SqliteStore.column_ham db w + hit ∧
  SqliteStore.column_spam db2 w = SqliteStore.column_spam db w ∧
  (is_Some (db2 !! w) ↔ w ∈ T ∨ w = D ∨ is_Some (db !! w)).
Proof.
  intros D hit db1 db2.
  assert (∀ spam ham,
    let db' := ((SqliteStore._upsert (elements T) spam ham;;
                 SqliteStore._upsert [D] spam ham) db).2 in
    SqliteStore.column_spam db' w = SqliteStore.column_spam db w + spam * hit ∧
    SqliteStore.column_ham db' w = SqliteStore.column_ham db w + ham * hit ∧
    (is_Some (db' !! w) ↔ w ∈ T ∨ w = D ∨ is_Some (db !! w))) as Hgen.
  { intros spam ham db'. subst db'. rewrite run_bind.
    change (SqliteStore._upsert (elements T) spam ham db)
      with (Ok tt, (SqliteStore._upsert (elements T) spam ham db).2).
    destruct (SqliteStoreFacts._upsert_columns [D] spam ham
                (SqliteStore._upsert (elements T) spam ham db).2 w) as [-> ->].
    destruct (SqliteStoreFacts._upsert_columns (elements T) spam ham db w)
      as [-> ->].
    rewrite sqlite_upsert_rows, sqlite_upsert_rows.
    rewrite occurrences_singleton, occurrences_elements, elem_of_elements.
    rewrite list_elem_of_singleton. subst hit.
    assert ((if decide (D = w) then 1 else 0) = (if decide (w = D) then 1 else 0))
      as -> by (destruct (decide (D = w)), (decide (w = D)); congruence).
    split; [lia|]. split; [lia|]. tauto. }
  destruct (Hgen 1 0) as (Hs1 & Hh1 & Hr1). destruct (Hgen 0 1) as (Hs2 & Hh2 & Hr2).
  subst db1 db2. unfold SqliteStore.add_spam, SqliteStore.add_ham.
  split; [done|].
  split; [etrans; [exact Hs1 | ring]|]. split; [etrans; [exact Hh1 | ring]|].
  split; [exact Hr1|]. split; [done|].
  split; [etrans; [exact Hh2 | ring]|]. split; [etrans; [exact Hs2 | ring]|].
  exact Hr2.
Qed.

Lemma sqlite_get_token_counts_fold (db : gmap string (Z * Z)) (tokens : list string) :
  ∀ (d : gmap string (Z * Z)) (w : string),
    foldl (λ d w,
             match db !! w with
             | Some (s, h) => <[w := (Z.max 0 s, Z.max 0 h)]> d
             | None => d
             end) d tokens !! w =
    if decide (w ∈ tokens) then
      match db !! w with
      | Some (s, h) => Some (Z.max 0 s, Z.max 0 h)
      | None => d !! w
      end
    else d !! w.
Proof.
  induction tokens as [|k tokens IH]; intros d w; [done|].
  simpl foldl. rewrite IH.
  destruct (decide (w ∈ tokens)) as [Hin|Hin].
  - rewrite decide_True by (apply elem_of_cons; by right).
    destruct (db !! w) as [[s h]|] eqn:Hw; [done|].
    destruct (decide (k = w)) as [->|Hne]; [by rewrite Hw|].
    destruct (db !! k) as [[s h]|]; [|done]. by rewrite lookup_insert_ne.
  - destruct (decide (k = w)) as [->|Hne].
    + rewrite decide_True by (apply elem_of_cons; by left).
      destruct (db !! w) as [[s h]|]; [|done]. by rewrite lookup_insert_eq.
    + rewrite decide_False
        by (intros [?|?]%elem_of_cons; [by subst | done]).
      destruct (db !! k) as [[s h]|]; [|done]. by rewrite lookup_insert_ne.
Qed.

(** X7. In the durable store [get_token_counts(tokens)] returns normally,
    leaves the table alone, and its result has an entry exactly for the
    requested tokens that have a row; the entry holds the two columns with a
    negative value read as zero, so no reported count is negative. *)
Theorem sqlite_get_token_counts_spec
    (db : gmap string (Z * Z)) (tokens : list string) :
  ∃ d, SqliteStore.get_token_counts tokens db = (Ok d, db) ∧
       (∀ w, d !! w =
             if decide (w ∈ tokens)
             then match db !! w with
                  | Some (s, h) => Some (Z.max 0 s, Z.max 0 h)
                  | None => None
                  end
             else None) ∧
       (∀ w spamcount hamcount,
          d !! w = Some (spamcount, hamcount) → 0 ≤ spamcount ∧ 0 ≤ hamcount).
Proof.
  eexists. split; [reflexivity|].
  assert (∀ w, foldl (λ d w,
             match db !! w with
             | Some (s, h) => <[w := (Z.max 0 s, Z.max 0 h)]> d
             | None => d
             end) (∅ : gmap string (Z * Z)) tokens !! w =
             if decide (w ∈ tokens)
             then match db !! w with
                  | Some (s, h) => Some (Z.max 0 s, Z.max 0 h)
                  | None => None
                  end
             else None) as Hspec.
  { intros w. rewrite sqlite_get_token_counts_fold, lookup_empty.
    destruct (decide (w ∈ tokens)); [|done]. by destruct (db !! w) as [[s h]|]. }
  split; [exact Hspec|].
  intros w sc hc. rewrite Hspec.
  destruct (decide (w ∈ tokens)); [|done].
  destruct (db !! w) as [[s h]|]; simpl; [|done].
  intros [= <- <-]. lia.
Qed.

(** ** The two stores give the same answers *)

Lemma agree_ret {St1 St2 A} (a : A) (s1 : St1) (s2 : St2) :
  agree (mret a) s1 (mret a) s2.
Proof. by exists (Ok a). Qed.

Lemma agree_lift {St1 St2 A} (r : result A) (s1 : St1) (s2 : St2) :
  agree (lift r) s1 (lift r) s2.
Proof. by exists r. Qed.

Lemma agree_py_assert {St1 St2} (cond : bool) (msg : string) (s1 : St1) (s2 : St2) :
  agree (py_assert cond msg) s1 (py_assert cond msg) s2.
Proof. destruct cond; by eexists. Qed.

Lemma agree_py_div {St1 St2} (x y : Q) (s1 : St1) (s2 : St2) :
  agree (py_div x y) s1 (py_div x y) s2.
Proof. unfold py_div. destruct (Qeq_bool y 0); by eexists. Qed.

Lemma agree_bind {St1 St2 A B} (m1 : M St1 A) (m2 : M St2 A)
    (f1 : A → M St1 B) (f2 : A → M St2 B) (s1 : St1) (s2 : St2) :
  agree m1 s1 m2 s2 →
  (∀ a, agree (f1 a) s1 (f2 a) s2) →
  agree (m1 ≫= f1) s1 (m2 ≫= f2) s2.
Proof.
  intros ([a|e] & H1 & H2) Hf.
  - destruct (Hf a) as (r & Hr1 & Hr2). exists r.
    by rewrite !run_bind, H1, H2.
  - exists (Raise e). by rewrite !run_bind, H1, H2.
Qed.

Lemma agree_for_each {St1 St2 A B} (body1 : B → A → M St1 B)
    (body2 : B → A → M St2 B) (xs : list A) (s1 : St1) (s2 : St2) :
  (∀ acc x, agree (body1 acc x) s1 (body2 acc x) s2) →
  ∀ acc, agree (for_each body1 xs acc) s1 (for_each body2 xs acc) s2.
Proof.
  intros Hbody. induction xs as [|x xs IH]; intros acc; simpl.
  - apply agree_ret.
  - apply agree_bind; [apply Hbody | apply IH].
Qed.

Section classifier_agrees.
Context {St1 St2 : Type} {store1 : Store St1} {store2 : Store St2}.
Variable self : Classifier.
Variables (s1 : St1) (s2 : St2).
Hypothesis totals_agree :
  agree (get_nspam_nham (St:=St1)) s1 (get_nspam_nham (St:=St2)) s2.

Lemma probability_agrees spamcount hamcount :
  agree (probability self spamcount hamcount) s1
        (probability self spamcount hamcount) s2.
Proof.
  unfold probability. apply agree_bind; [done|]. intros [nspam nham].
  repeat (apply agree_bind;
          [apply agree_py_assert || apply agree_py_div | intros ?]).
  apply agree_py_div.
Qed.

Lemma _worddistanceget_agrees counts token :
  agree (_worddistanceget self counts token) s1
        (_worddistanceget self counts token) s2.
Proof.
  unfold _worddistanceget. apply agree_bind.
  - destruct (counts !! token) as [[spamcount hamcount]|].
    + apply probability_agrees.
    + apply agree_ret.
  - intros prob. apply agree_ret.
Qed.

Lemma _getclues_agrees tokens :
  agree (get_token_counts (St:=St1) (py_set tokens)) s1
        (get_token_counts (St:=St2) (py_set tokens)) s2 →
  agree (_getclues self tokens) s1 (_getclues self tokens) s2.
Proof.
  intros Hcounts. unfold _getclues. apply agree_bind; [done|]. intros counts.
  apply agree_bind; [|intros clues; apply agree_ret].
  apply agree_for_each. intros clues token.
  apply agree_bind; [apply _worddistanceget_agrees|]. intros tup.
  destruct (Qle_bool _ _); apply agree_ret.
Qed.

Lemma spamprob_agrees tokens evidence :
  agree (get_token_counts (St:=St1) (py_set tokens)) s1
        (get_token_counts (St:=St2) (py_set tokens)) s2 →
  agree (spamprob self tokens evidence) s1 (spamprob self tokens evidence) s2.
Proof.
  intros Hcounts. unfold spamprob.
  apply agree_bind; [by apply _getclues_agrees|]. intros clues.
  destruct (foldl spamprob_step (1%R, 0, 1%R, 0) clues) as [[[S_ Sexp] H_] Hexp].
  apply agree_bind; [apply agree_lift|]. intros lnS.
  apply agree_bind; [apply agree_lift|]. intros lnH.
  apply agree_bind.
  - destruct (negb _); [|apply agree_ret].
    apply agree_bind; [apply agree_lift|]. intros qS.
    apply agree_bind; [apply agree_lift|]. intros qH.
    apply agree_ret.
  - intros [[prob S1] H1]. destruct evidence; apply agree_ret.
Qed.

End classifier_agrees.

Lemma sqlite_message_lookup (db : gmap string (Z * Z)) (T : gset string)
    (spam ham : Z) (w : string) :
  let D := SqliteStore.DOC_COUNT_TOKEN in
  let hit := (if decide (w ∈ T) then 1 else 0) + (if decide (w = D) then 1 else 0) in
  ((SqliteStore._upsert (elements T) spam ham;;
    SqliteStore._upsert [D] spam ham) db).2 !! w =
  if decide (w ∈ T ∨ w = D)
  then Some (SqliteStore.column_spam db w + spam * hit,
             SqliteStore.column_ham db w + ham * hit)
  else db !! w.
Proof.
  intros D hit. rewrite run_bind.
  change (SqliteStore._upsert (elements T) spam ham db)
    with (Ok tt, (SqliteStore._upsert (elements T) spam ham db).2).
  set (db1 := (SqliteStore._upsert (elements T) spam ham db).2).
  set (db2 := (SqliteStore._upsert [D] spam ham db1).2).
  destruct (SqliteStoreFacts._upsert_columns [D] spam ham db1 w) as [Hs2 Hh2].
  destruct (SqliteStoreFacts._upsert_columns (elements T) spam ham db w)
    as [Hs1 Hh1].
  pose proof (sqlite_upsert_rows [D] spam ham db1 w) as Hr2.
  pose proof (sqlite_upsert_rows (elements T) spam ham db w) as Hr1.
  fold db1 in Hs1, Hh1, Hr1, Hs2, Hh2. fold db2 in Hs2, Hh2, Hr2.
  rewrite Hs1 in Hs2. rewrite Hh1 in Hh2.
  rewrite occurrences_singleton, occurrences_elements in Hs2, Hh2.
  rewrite list_elem_of_singleton in Hr2. rewrite elem_of_elements in Hr1.
  assert ((if decide (D = w) then 1 else 0) = (if decide (w = D) then 1 else 0))
    as Hsym by (destruct (decide (D = w)), (decide (w = D)); congruence).
  rewrite Hsym in Hs2, Hh2.
  change ((Ok (), db1).2) with db1. fold db2.
  unfold SqliteStore.column_spam, SqliteStore.column_ham in *.
  destruct (decide (w ∈ T ∨ w = D)) as [Hhit|Hmiss].
  - assert (is_Some (db2 !! w)) as [[a b] Hab] by (apply Hr2; tauto).
    rewrite Hab in *. simpl in *. subst hit. f_equal. f_equal; lia.
  - rewrite (decide_False (P := w ∈ T)) in Hs2, Hh2 by tauto.
    rewrite (decide_False (P := w = D)) in Hs2, Hh2 by tauto.
    destruct (db !! w) as [[a b]|] eqn:Hw.
    + assert (is_Some (db2 !! w)) as [[a' b'] Hab]
        by (apply Hr2; right; apply Hr1; right; by eexists).
      rewrite Hab in *. simpl in *. f_equal. f_equal; lia.
    + destruct (decide (is_Some (db2 !! w))) as [Hsome|Hnone].
      * exfalso. apply Hr2 in Hsome as [?|Hsome]; [tauto|].
        apply Hr1 in Hsome as [?|[? ?]]; [tauto | done].
      * destruct (db2 !! w) as [x|]; [|done]. exfalso. apply Hnone. by eexists.
Qed.

Lemma dict_in_false {V} (key : string) (dct : gmap string V) :
  dict_in key dct = false → dct !! key = None.
Proof.
  intros H. destruct (dct !! key) eqn:E; [|done].
  by rewrite (dict_in_Some _ _ _ E) in H.
Qed.

Lemma dict_in_increment (dct : gmap string Z) (T : gset string) (w : string) :
  dict_in w (HeapStore._increment dct (elements T)) =
  bool_decide (w ∈ T) || dict_in w dct.
Proof.
  unfold dict_in at 1. rewrite increment_set_lookup.
  destruct (decide (w ∈ T)) as [H|H].
  - rewrite (bool_decide_eq_true_2 (w ∈ T)) by done.
    by apply bool_decide_eq_true_2.
  - by rewrite (bool_decide_eq_false_2 (w ∈ T)) by done.
Qed.

Lemma same_counts_columns s db w :
  same_counts s db → w ≠ SqliteStore.DOC_COUNT_TOKEN →
  SqliteStore.column_spam db w = HeapStore.spamcount s w ∧
  SqliteStore.column_ham db w = HeapStore.hamcount s w.
Proof.
  intros (_ & _ & _ & _ & _ & Hw) Hne. destruct (Hw w) as (_ & _ & Hrow).
  unfold SqliteStore.column_spam, SqliteStore.column_ham. rewrite (Hrow Hne).
  destruct (dict_in w (HeapStore.spam s) || dict_in w (HeapStore.ham s)) eqn:Hin;
    [done|].
  apply orb_false_iff in Hin as [Hs Hh].
  unfold HeapStore.spamcount, HeapStore.hamcount, dict_get.
  by rewrite (dict_in_false _ _ Hs), (dict_in_false _ _ Hh).
Qed.

Lemma same_counts_init : same_counts HeapStore.init ∅.
Proof.
  repeat split; done.
Qed.

Lemma same_counts_add_spam s db (T : gset string) :
  SqliteStore.DOC_COUNT_TOKEN ∉ T →
  same_counts s db →
  same_counts (HeapStore.add_spam (elements T) s).2
              (SqliteStore.add_spam (elements T) db).2.
Proof.
  intros HD Hsame. pose proof Hsame as (Htot & Hns & Hnh & HsD & HhD & Hw).
  set (db' := (SqliteStore.add_spam (elements T) db).2).
  assert (∀ w, db' !! w = _) as sqlite_lookup
    by (intros w; apply (sqlite_message_lookup db T 1 0 w)).
  clearbody db'. unfold same_counts. simpl.
  unfold HeapStore.spamcount, HeapStore.hamcount. simpl.
  split; [|repeat split; try lia].
  - rewrite sqlite_lookup. rewrite decide_True by (by right).
    rewrite decide_False by done. rewrite decide_True by done.
    unfold SqliteStore.column_spam, SqliteStore.column_ham.
    rewrite Htot. simpl. f_equal; lia.
  - rewrite increment_set_lookup. by rewrite decide_False.
  - done.
  - rewrite HeapStoreFacts._increment_get.
    pose proof (occurrences_nonneg w (elements T)).
    destruct (Hw w) as (? & _). unfold HeapStore.spamcount in *. lia.
  - by destruct (Hw w) as (_ & ? & _).
  - intros Hne. rewrite sqlite_lookup, dict_in_increment.
    rewrite HeapStoreFacts._increment_get, occurrences_elements.
    destruct (same_counts_columns s db w Hsame Hne) as [-> ->].
    unfold HeapStore.spamcount, HeapStore.hamcount.
    destruct (decide (w ∈ T)) as [HT|HT].
    + rewrite decide_True by (by left).
      rewrite (bool_decide_eq_true_2 (w ∈ T)) by done. simpl.
      rewrite decide_False by done. f_equal. f_equal; lia.
    + rewrite decide_False by tauto.
      rewrite (bool_decide_eq_false_2 (w ∈ T)) by done. simpl.
      destruct (Hw w) as (_ & _ & Hrow). rewrite (Hrow Hne).
      unfold HeapStore.spamcount, HeapStore.hamcount.
      destruct (_ || _); [|done]. f_equal. f_equal; lia.
Qed.

Lemma same_counts_add_ham s db (T : gset string) :
  SqliteStore.DOC_COUNT_TOKEN ∉ T →
  same_counts s db →
  same_counts (HeapStore.add_ham (elements T) s).2
              (SqliteStore.add_ham (elements T) db).2.
Proof.
  intros HD Hsame. pose proof Hsame as (Htot & Hns & Hnh & HsD & HhD & Hw).
  set (db' := (SqliteStore.add_ham (elements T) db).2).
  assert (∀ w, db' !! w = _) as sqlite_lookup
    by (intros w; apply (sqlite_message_lookup db T 0 1 w)).
  clearbody db'. unfold same_counts. simpl.
  unfold HeapStore.spamcount, HeapStore.hamcount. simpl.
  split; [|repeat split; try lia].
  - rewrite sqlite_lookup. rewrite decide_True by (by right).
    rewrite decide_False by done. rewrite decide_True by done.
    unfold SqliteStore.column_spam, SqliteStore.column_ham.
    rewrite Htot. simpl. f_equal; lia.
  - done.
  - rewrite increment_set_lookup. by rewrite decide_False.
  - by destruct (Hw w) as (? & _).
  - rewrite HeapStoreFacts._increment_get.
    pose proof (occurrences_nonneg w (elements T)).
    destruct (Hw w) as (_ & ? & _). unfold HeapStore.hamcount in *. lia.
  - intros Hne. rewrite sqlite_lookup, dict_in_increment.
    rewrite HeapStoreFacts._increment_get, occurrences_elements.
    destruct (same_counts_columns s db w Hsame Hne) as [-> ->].
    unfold HeapStore.spamcount, HeapStore.hamcount.
    destruct (decide (w ∈ T)) as [HT|HT].
    + rewrite decide_True by (by left).
      rewrite (bool_decide_eq_true_2 (w ∈ T)) by done.
      rewrite orb_true_r.
      rewrite decide_False by done. f_equal. f_equal; lia.
    + rewrite decide_False by tauto.
      rewrite (bool_decide_eq_false_2 (w ∈ T)) by done. simpl.
      destruct (Hw w) as (_ & _ & Hrow). rewrite (Hrow Hne).
      unfold HeapStore.spamcount, HeapStore.hamcount.
      destruct (_ || _); [|done]. f_equal. f_equal; lia.
Qed.

Lemma same_counts_run ops : ∀ (s : HeapStore.t) (db : gmap string (Z * Z)),
  adds_without_reserved ops = true →
  same_counts s db →
  (run_ops ops s).1 = Ok tt ∧ (run_ops ops db).1 = Ok tt ∧
  same_counts (run_ops ops s).2 (run_ops ops db).2.
Proof.
  induction ops as [|o ops IH]; intros s db Hops Hsame; [done|].
  destruct o as [T|T|T|T]; simpl in Hops; try done;
    apply andb_true_iff in Hops as [HD Hops];
    apply bool_decide_eq_true in HD;
    simpl run_ops; rewrite !run_bind.
  - change (run_op (AddSpam T) s)
      with (Ok tt, (HeapStore.add_spam (elements T) s).2).
    change (run_op (AddSpam T) db)
      with (Ok tt, (SqliteStore.add_spam (elements T) db).2).
    apply IH; [done|]. by apply same_counts_add_spam.
  - change (run_op (AddHam T) s)
      with (Ok tt, (HeapStore.add_ham (elements T) s).2).
    change (run_op (AddHam T) db)
      with (Ok tt, (SqliteStore.add_ham (elements T) db).2).
    apply IH; [done|]. by apply same_counts_add_ham.
Qed.

Lemma same_counts_totals s db :
  same_counts s db →
  agree (get_nspam_nham (St:=HeapStore.t)) s
        (get_nspam_nham (St:=gmap string (Z * Z))) db.
Proof.
  intros (Htot & Hns & Hnh & _). exists (Ok (HeapStore.nspam s, HeapStore.nham s)).
  split; [done|]. simpl.
  rewrite SqliteStoreFacts.get_nspam_nham_reports. f_equal. f_equal.
  unfold SqliteStore.nspam, SqliteStore.nham, SqliteStore.spamcount,
    SqliteStore.hamcount, SqliteStore.column_spam, SqliteStore.column_ham.
  rewrite Htot. simpl. f_equal; lia.
Qed.

Lemma same_counts_token_counts s db (tokens : list string) :
  same_counts s db →
  SqliteStore.DOC_COUNT_TOKEN ∉ tokens →
  agree (get_token_counts (St:=HeapStore.t) tokens) s
        (get_token_counts (St:=gmap string (Z * Z)) tokens) db.
Proof.
  intros (_ & _ & _ & _ & _ & Hw) HD. eexists. split; [reflexivity|].
  simpl. unfold SqliteStore.get_token_counts, gets. f_equal. f_equal.
  apply map_eq. intros w.
  rewrite heap_get_token_counts_fold, sqlite_get_token_counts_fold.
  destruct (decide (w ∈ tokens)) as [Hin|Hin]; [|done].
  assert (w ≠ SqliteStore.DOC_COUNT_TOKEN) as Hne by (by intros ->).
  destruct (Hw w) as (Hs & Hh & Hrow). rewrite (Hrow Hne).
  unfold HeapStore.spamcount, HeapStore.hamcount in *.
  destruct (_ || _); [|done]. f_equal. f_equal; lia.
Qed.

(** X8. The two stores are interchangeable for training by adds: after the
    same run of [add_spam] / [add_ham] calls on a fresh volatile store and on
    an empty table, with no message containing the reserved token
    [DOC_COUNT_TOKEN], both runs return normally, the two stores report the
    same totals and the same token counts for every request that does not
    ask for the reserved token, and [probability], [_getclues] and [spamprob]
    return the same result (value or exception) on either store, leaving it
    unchanged. *)
Theorem stores_interchangeable
    (self : Classifier) (ops : list op) (tokens : list string)
    (evidence : bool) (spamcount hamcount : Z) :
  adds_without_reserved ops = true →
  SqliteStore.DOC_COUNT_TOKEN ∉ tokens →
  let s := (run_ops ops HeapStore.init).2 in
  let db := (run_ops ops (∅ : gmap string (Z * Z))).2 in
  (run_ops ops HeapStore.init).1 = Ok tt ∧
  (run_ops ops (∅ : gmap string (Z * Z))).1 = Ok tt ∧
  agree (get_nspam_nham (St:=HeapStore.t)) s
        (get_nspam_nham (St:=gmap string (Z * Z))) db ∧
  agree (get_token_counts (St:=HeapStore.t) tokens) s
        (get_token_counts (St:=gmap string (Z * Z)) tokens) db ∧
  agree (probability self spamcount hamcount) s
        (probability self spamcount hamcount) db ∧
  agree (_getclues self tokens) s (_getclues self tokens) db ∧
  agree (spamprob self tokens evidence) s (spamprob self tokens evidence) db.
Proof.
  intros Hops HD s db.
  destruct (same_counts_run ops HeapStore.init ∅ Hops same_counts_init)
    as (Hok1 & Hok2 & Hsame).
  fold s db in Hsame.
  pose proof (same_counts_totals s db Hsame) as Htotals.
  assert (SqliteStore.DOC_COUNT_TOKEN ∉ py_set tokens) as HD'.
  { unfold py_set. rewrite elem_of_elements, elem_of_list_to_set. done. }
  pose proof (same_counts_token_counts s db (py_set tokens) Hsame HD') as Hset.
  split; [done|]. split; [done|]. split; [done|].
  split; [by apply same_counts_token_counts|].
  split; [by apply probability_agrees|].
  split; [by apply _getclues_agrees | by apply spamprob_agrees].
Qed.

Lemma stores_interchangeable_witness :
  adds_without_reserved adding_run = true ∧
  (SqliteStore.DOC_COUNT_TOKEN ∉ ["buy"; "world"]) ∧
  agree (spamprob default_classifier ["buy"; "world"] false)
        (run_ops adding_run HeapStore.init).2
        (spamprob default_classifier ["buy"; "world"] false)
        (run_ops adding_run (∅ : gmap string (Z * Z))).2.
Proof.
  assert (adds_without_reserved adding_run = true) as Hops
    by (vm_compute; reflexivity).
  assert (SqliteStore.DOC_COUNT_TOKEN ∉ ["buy"; "world"]) as HD
    by (apply (bool_decide_unpack _); vm_compute; exact I).
  split; [exact Hops|]. split; [exact HD|].
  exact (proj2 (proj2 (proj2 (proj2 (proj2 (proj2
    (stores_interchangeable default_classifier adding_run ["buy"; "world"]
       false 0 0 Hops HD))))))).
Defined.

(** * Further properties of the classifier *)

Lemma py_div_ok {St} (x y : Q) (s : St) :
  ¬ (y == 0)%Q → py_div x y s = (Ok (x / y)%Q, s).
Proof.
  intros Hy. unfold py_div.
  destruct (Qeq_bool y 0) eqn:E; [|done].
  by apply Qeq_bool_iff in E.
Qed.

Lemma inject_Z_pos (n : Z) : 0 < n → (0 < inject_Z n)%Q.
Proof. intros H. unfold Qlt. simpl. lia. Qed.

Lemma inject_Z_nonneg (n : Z) : 0 ≤ n → (0 <= inject_Z n)%Q.
Proof. intros H. unfold Qle. simpl. lia. Qed.

Lemma Qdiv_nonneg (a b : Q) : (0 <= a → 0 < b → 0 <= a / b)%Q.
Proof.
  intros Ha Hb. apply Qle_shift_div_l; [done|]. by rewrite Qmult_0_l.
Qed.

Lemma Qdiv_pos (a b : Q) : (0 < a → 0 < b → 0 < a / b)%Q.
Proof.
  intros Ha Hb. apply Qlt_shift_div_l; [done|]. by rewrite Qmult_0_l.
Qed.

Section probability_value.
Context {St : Type} `{!Store St}.
Variable self : Classifier.

(** What [probability] returns once the assertions pass and no divisor is
    zero. *)
Lemma probability_returns (s s' : St) (nspam nham spamcount hamcount : Z) :
  let hamratio := (inject_Z hamcount / inject_Z (py_or_one nham))%Q in
  let spamratio := (inject_Z spamcount / inject_Z (py_or_one nspam))%Q in
  let S_ := unknown_token_strength self in
  let n := inject_Z (hamcount + spamcount) in
  get_nspam_nham s = (Ok (nspam, nham), s') →
  hamcount ≤ py_or_one nham →
  spamcount ≤ py_or_one nspam →
  ¬ (hamratio + spamratio == 0)%Q →
  ¬ (S_ + n == 0)%Q →
  probability self spamcount hamcount s =
  (Ok ((S_ * unknown_token_prob self + n * (spamratio / (hamratio + spamratio)))
       / (S_ + n))%Q, s').
Proof.
  intros hamratio spamratio S_ n Hget Hh Hs Hsum Hden.
  unfold probability. rewrite run_bind, Hget, run_bind.
  destruct (Z.leb_spec hamcount (py_or_one nham)); [|lia]. simpl.
  rewrite run_bind.
  destruct (Z.leb_spec spamcount (py_or_one nspam)); [|lia]. simpl.
  rewrite run_bind, py_div_nonzero by apply py_or_one_nonzero.
  rewrite run_bind, py_div_nonzero by apply py_or_one_nonzero.
  rewrite run_bind, py_div_ok by done.
  by rewrite py_div_ok.
Qed.

End probability_value.

Lemma py_or_one_pos (n : Z) : 0 ≤ n → 0 < py_or_one n.
Proof. unfold py_or_one. destruct (Z.eqb_spec n 0); lia. Qed.

Lemma py_or_one_ge (n : Z) : 0 ≤ n → n ≤ py_or_one n.
Proof. unfold py_or_one. destruct (Z.eqb_spec n 0); lia. Qed.

Lemma Qunit_fraction (a b : Q) :
  (0 <= a → 0 <= b → 0 < b + a → 0 <= a / (b + a) <= 1)%Q.
Proof.
  intros Ha Hb Hsum. split.
  - by apply Qdiv_nonneg.
  - apply Qle_shift_div_r; [done|]. lra.
Qed.

Lemma Qadjusted_bounds (S_ x n p : Q) :
  (0 < S_ → 0 <= x <= 1 → 0 <= n → 0 <= p <= 1 →
   0 <= (S_ * x + n * p) / (S_ + n) <= 1)%Q.
Proof.
  intros HS [Hx0 Hx1] Hn [Hp0 Hp1].
  assert (0 <= S_ * x)%Q by (apply Qmult_le_0_compat; lra).
  assert (0 <= n * p)%Q by (apply Qmult_le_0_compat; lra).
  assert (S_ * x <= S_)%Q.
  { rewrite <- (Qmult_1_r S_) at 2. apply Qmult_le_l; lra. }
  assert (n * p <= n)%Q.
  { destruct (Qlt_le_dec 0 n) as [Hpos|Hle].
    - rewrite <- (Qmult_1_r n) at 2. apply Qmult_le_l; lra.
    - assert (n == 0)%Q as -> by lra. lra. }
  split.
  - apply Qdiv_nonneg; lra.
  - apply Qle_shift_div_r; lra.
Qed.

(** X9. The adjusted probability stays in range: when the store reports
    non-negative totals, the counts are non-negative, not above the totals
    and not both zero, the strength [unknown_token_strength] is positive and
    [unknown_token_prob] lies in [[0, 1]], [probability] returns normally, a
    value in [[0, 1]], and leaves the store as the totals' read left it. *)
Theorem probability_in_unit_interval {St : Type} `{!Store St}
    (self : Classifier) (s s' : St) (nspam nham spamcount hamcount : Z) :
  get_nspam_nham s = (Ok (nspam, nham), s') →
  (0 < unknown_token_strength self)%Q →
  (0 <= unknown_token_prob self <= 1)%Q →
  0 ≤ spamcount ≤ nspam → 0 ≤ hamcount ≤ nham → 0 < spamcount + hamcount →
  ∃ p, probability self spamcount hamcount s = (Ok p, s') ∧ (0 <= p <= 1)%Q.
Proof.
  intros Hget HS Hx Hsc Hhc Hsum.
  pose proof (py_or_one_pos nspam ltac:(lia)) as Hns.
  pose proof (py_or_one_pos nham ltac:(lia)) as Hnh.
  pose proof (py_or_one_ge nspam ltac:(lia)).
  pose proof (py_or_one_ge nham ltac:(lia)).
  set (hamratio := (inject_Z hamcount / inject_Z (py_or_one nham))%Q).
  set (spamratio := (inject_Z spamcount / inject_Z (py_or_one nspam))%Q).
  assert (0 <= hamratio)%Q as Hhr
    by (apply Qdiv_nonneg; [apply inject_Z_nonneg; lia | by apply inject_Z_pos]).
  assert (0 <= spamratio)%Q as Hsr
    by (apply Qdiv_nonneg; [apply inject_Z_nonneg; lia | by apply inject_Z_pos]).
  assert (0 < hamratio + spamratio)%Q as Hpos.
  { destruct (decide (0 < spamcount)) as [Hp|Hp].
    - assert (0 < spamratio)%Q by (apply Qdiv_pos; by apply inject_Z_pos). lra.
    - assert (0 < hamratio)%Q
        by (apply Qdiv_pos; apply inject_Z_pos; lia). lra. }
  assert (0 <= inject_Z (hamcount + spamcount))%Q as Hn
    by (apply inject_Z_nonneg; lia).
  assert (0 < unknown_token_strength self + inject_Z (hamcount + spamcount))%Q
    as HS' by lra.
  eexists. split.
  - apply probability_returns; [done | lia | lia | |].
    + fold hamratio spamratio. intros E. rewrite E in Hpos. lra.
    + intros E. rewrite E in HS'. lra.
  - apply Qadjusted_bounds; try done. by apply Qunit_fraction.
Qed.

Lemma probability_in_unit_interval_witness :
  ∃ p, probability default_classifier 1 0 two_token_store
       = (Ok p, two_token_store) ∧ (0 <= p <= 1)%Q.
Proof.
  apply (probability_in_unit_interval default_classifier two_token_store
           two_token_store 10 10 1 0).
  - reflexivity.
  - reflexivity.
  - split; discriminate.
  - lia.
  - lia.
  - lia.
Defined.

Section one_sided_tokens.
Context {St : Type} `{!Store St}.
Variable self : Classifier.
Variables (s s' : St) (nspam nham : Z).
Hypothesis totals : get_nspam_nham s = (Ok (nspam, nham), s').
Hypothesis strength_pos : (0 < unknown_token_strength self)%Q.
Hypothesis nspam_nonneg : 0 ≤ nspam.
Hypothesis nham_nonneg : 0 ≤ nham.

(** A token seen in spam only: the raw ratio is one. *)
Lemma probability_spam_only (c : Z) :
  1 ≤ c ≤ nspam →
  ∃ p, probability self c 0 s = (Ok p, s') ∧
       (p == (unknown_token_strength self * unknown_token_prob self + inject_Z c)
             / (unknown_token_strength self + inject_Z c))%Q.
Proof.
  intros Hc.
  pose proof (py_or_one_pos nspam nspam_nonneg) as Hns.
  pose proof (py_or_one_pos nham nham_nonneg) as Hnh.
  pose proof (py_or_one_ge nspam nspam_nonneg).
  pose proof (inject_Z_pos c ltac:(lia)) as Hcq.
  pose proof (inject_Z_pos _ Hns) as Hnsq.
  pose proof (inject_Z_pos _ Hnh) as Hnhq.
  assert (0 < inject_Z c / inject_Z (py_or_one nspam))%Q as Hsr
    by (by apply Qdiv_pos).
  assert (inject_Z 0 / inject_Z (py_or_one nham) == 0)%Q as Hhr
    by (unfold Qdiv; ring).
  eexists. split.
  - apply probability_returns; [done | lia | lia | |].
    + intros E. rewrite Hhr in E. lra.
    + intros E. change (0 + c) with c in E. lra.
  - change (0 + c) with c. rewrite Hhr. field. repeat split; lra.
Qed.

(** A token seen in ham only: the raw ratio is zero. *)
Lemma probability_ham_only (c : Z) :
  1 ≤ c ≤ nham →
  ∃ p, probability self 0 c s = (Ok p, s') ∧
       (p == (unknown_token_strength self * unknown_token_prob self)
             / (unknown_token_strength self + inject_Z c))%Q.
Proof.
  intros Hc.
  pose proof (py_or_one_pos nspam nspam_nonneg) as Hns.
  pose proof (py_or_one_pos nham nham_nonneg) as Hnh.
  pose proof (py_or_one_ge nham nham_nonneg).
  pose proof (inject_Z_pos c ltac:(lia)) as Hcq.
  pose proof (inject_Z_pos _ Hns) as Hnsq.
  pose proof (inject_Z_pos _ Hnh) as Hnhq.
  assert (0 < inject_Z c / inject_Z (py_or_one nham))%Q as Hhr
    by (by apply Qdiv_pos).
  assert (inject_Z 0 / inject_Z (py_or_one nspam) == 0)%Q as Hsr
    by (unfold Qdiv; ring).
  eexists. split.
  - apply probability_returns; [done | lia | lia | |].
    + intros E. rewrite Hsr in E. lra.
    + intros E. rewrite Z.add_0_r in E. lra.
  - rewrite Z.add_0_r, Hsr. field. repeat split; lra.
Qed.

End one_sided_tokens.

(** X10. A token seen on one side only: its probability depends on its
    count alone, not on the totals. With non-negative totals and a positive
    [unknown_token_strength] [S], and [x] for [unknown_token_prob]: for a
    token never seen in ham, [probability(c, 0)] returns
    [(S * x + c) / (S + c)] whenever [1 <= c <= nspam]; for a token never
    seen in spam, [probability(0, c)] returns [S * x / (S + c)] whenever
    [1 <= c <= nham]. Both leave the store as the totals' read left it. *)
Theorem probability_one_sided {St : Type} `{!Store St}
    (self : Classifier) (s s' : St) (nspam nham c : Z) :
  get_nspam_nham s = (Ok (nspam, nham), s') →
  (0 < unknown_token_strength self)%Q →
  0 ≤ nspam → 0 ≤ nham → 1 ≤ c →
  (c ≤ nspam →
   ∃ p, probability self c 0 s = (Ok p, s') ∧
        (p == (unknown_token_strength self * unknown_token_prob self
               + inject_Z c)
              / (unknown_token_strength self + inject_Z c))%Q) ∧
  (c ≤ nham →
   ∃ p, probability self 0 c s = (Ok p, s') ∧
        (p == (unknown_token_strength self * unknown_token_prob self)
              / (unknown_token_strength self + inject_Z c))%Q).
Proof.
  intros Hget HS Hns Hnh Hc. split; intros Hc2.
  - by apply (probability_spam_only self s s' nspam nham Hget HS Hns Hnh c).
  - by apply (probability_ham_only self s s' nspam nham Hget HS Hns Hnh c).
Qed.

Lemma probability_one_sided_witness :
  ∃ p, probability default_classifier 3 0 two_token_store
         = (Ok p, two_token_store) ∧
       (p == (0.45 * 0.5 + inject_Z 3) / (0.45 + inject_Z 3))%Q.
Proof.
  apply (probability_one_sided default_classifier two_token_store
           two_token_store 10 10 3); try reflexivity; lia.
Defined.

(** ** What [_getclues] returns *)

Lemma py_insert_Permutation {A} (ltb : A → A → bool) (x : A) (l : list A) :
  py_insert ltb x l ≡ₚ x :: l.
Proof.
  induction l as [|y l IH]; [done|]. simpl.
  destruct (ltb y x); [|done]. rewrite IH. apply Permutation_swap.
Qed.

Lemma py_sort_Permutation {A} (ltb : A → A → bool) (l : list A) :
  py_sort ltb l ≡ₚ l.
Proof.
  unfold py_sort. induction l as [|x l IH]; [done|]. simpl.
  by rewrite py_insert_Permutation, IH.
Qed.

Lemma py_slice_to_sublist {A} (k : Z) (l : list A) :
  py_slice_to k l `sublist_of` l.
Proof. unfold py_slice_to. destruct (k <? 0); apply sublist_take. Qed.

Lemma py_slice_to_length {A} (k : Z) (l : list A) :
  0 ≤ k → (length (py_slice_to k l) ≤ Z.to_nat k)%nat.
Proof.
  intros Hk. unfold py_slice_to. destruct (Z.ltb_spec k 0); [lia|].
  rewrite length_take. lia.
Qed.

Section getclues_facts.
Context {St : Type} `{!Store St}.
Variable self : Classifier.

Lemma _worddistanceget_shape counts token (s s1 : St) tup :
  _worddistanceget self counts token s = (Ok tup, s1) →
  tup.2 = token ∧ tup.1.1 = Qabs (tup.1.2 - 0.5).
Proof.
  unfold _worddistanceget. rewrite run_bind.
  destruct (match counts !! token with
            | Some (spamcount, hamcount) => probability self spamcount hamcount
            | None => mret (unknown_token_prob self)
            end s) as [[prob|e] s2]; [|done].
  rewrite run_ret. by intros [= <- _].
Qed.

(** The loop of [_getclues] appends, in the order of the tokens, the tuples
    of those tokens that pass the test. *)
Lemma getclues_loop counts (tokens : list string) :
  ∀ (acc : list (Q * Q * string)) (s s1 : St) clues,
    for_each (λ clues token,
                tup ← _worddistanceget self counts token;
                if Qle_bool (minimum_prob_strength self) (tup.1.1)
                then mret (clues ++ [tup])
                else mret clues) tokens acc s = (Ok clues, s1) →
    ∃ new, clues = acc ++ new ∧
           (snd <$> new) `sublist_of` tokens ∧
           Forall (kept_tuple self) new.
Proof.
  induction tokens as [|token tokens IH]; intros acc s s1 clues.
  - simpl. rewrite run_ret. intros [= <- _]. exists [].
    by rewrite app_nil_r.
  - simpl for_each. rewrite run_bind, run_bind.
    destruct (_worddistanceget self counts token s) as [[tup|e] s2] eqn:Htup;
      [|done].
    destruct (_worddistanceget_shape _ _ _ _ _ Htup) as [Htok Hdist].
    destruct (Qle_bool (minimum_prob_strength self) (tup.1.1)) eqn:Htest;
      rewrite run_ret; intros Hloop;
      destruct (IH _ _ _ _ Hloop) as (new & -> & Hsub & Hall).
    + exists (tup :: new). rewrite <- app_assoc. split; [done|]. split.
      * rewrite fmap_cons, Htok. by apply sublist_skip.
      * by constructor.
    + exists new. split; [done|]. split; [by apply sublist_cons|done].
Qed.

Lemma getclues_selection tokens (s : St) clues :
  (_getclues self tokens s).1 = Ok clues →
  ∃ new sel,
    (snd <$> new) `sublist_of` py_set tokens ∧
    Forall (kept_tuple self) new ∧
    sel = py_slice_to (max_discriminators self) (py_sort tup_ltb new) ∧
    clues = (λ '(distance, prob, token), (prob, token)) <$> sel.
Proof.
  unfold _getclues. rewrite run_bind.
  destruct (get_token_counts (py_set tokens) s) as [[counts|e] s1]; [|done].
  rewrite run_bind.
  destruct (for_each _ (py_set tokens) [] s1) as [[tups|e] s2] eqn:Hloop;
    [|done].
  rewrite run_ret. simpl. intros [= <-].
  destruct (getclues_loop _ _ _ _ _ _ Hloop) as (new & -> & Hsub & Hall).
  exists new. eexists. done.
Qed.

End getclues_facts.

(** X11. Whenever [_getclues] returns, on any store: with a non-negative
    [max_discriminators] it returns at most that many clues; no token occurs
    in two clues; every clue's token is a token of the stream; and every
    clue's probability is at least [minimum_prob_strength] away from 0.5. *)
Theorem getclues_discriminators {St : Type} `{!Store St}
    (self : Classifier) (tokens : list string) (s : St)
    (clues : list (Q * string)) :
  (_getclues self tokens s).1 = Ok clues →
  (0 ≤ max_discriminators self →
   (length clues ≤ Z.to_nat (max_discriminators self))%nat) ∧
  NoDup (snd <$> clues) ∧
  ∀ p t, (p, t) ∈ clues →
         t ∈ tokens ∧ (minimum_prob_strength self <= Qabs (p - 0.5))%Q.
Proof.
  intros Hclues.
  destruct (getclues_selection self tokens s clues Hclues)
    as (new & sel & Hsub & Hall & Hsel & ->).
  assert (sel `sublist_of` py_sort tup_ltb new) as Hsel_sub
    by (subst sel; apply py_slice_to_sublist).
  assert (∀ tup, tup ∈ sel → tup ∈ new) as Hsel_new.
  { intros tup Hin. rewrite <- (py_sort_Permutation tup_ltb new).
    eapply elem_of_submseteq; [exact Hin | by apply sublist_submseteq]. }
  assert (snd <$> ((λ '(distance, prob, token), (prob, token)) <$> sel)
          = snd <$> sel) as Hsnd.
  { rewrite <- list_fmap_compose. apply list_fmap_ext.
    by intros _ [[d p] t] _. }
  split; [|split].
  - intros Hk. rewrite length_fmap. subst sel. by apply py_slice_to_length.
  - rewrite Hsnd. apply (sublist_NoDup _ (snd <$> py_sort tup_ltb new)).
    + rewrite (py_sort_Permutation tup_ltb new).
      apply (sublist_NoDup _ (py_set tokens)); [|done].
      unfold py_set. apply NoDup_elements.
    + by apply fmap_sublist.
  - intros p t Hin. apply list_elem_of_fmap in Hin as ([[d p'] t'] & [= -> ->] & Hin).
    apply Hsel_new in Hin.
    pose proof (proj1 (Forall_forall _ _) Hall _ Hin) as [Hmin Hdist].
    cbn [fst snd] in Hmin, Hdist. split.
    + assert (t' ∈ snd <$> new) as Ht
        by (apply list_elem_of_fmap; by exists (d, p', t')).
      eapply elem_of_submseteq in Ht; [|by apply sublist_submseteq].
      unfold py_set in Ht. by rewrite elem_of_elements, elem_of_list_to_set in Ht.
    + rewrite <- Hdist. by apply Qle_bool_iff.
Qed.

Lemma getclues_discriminators_witness :
  (_getclues one_discriminator ["a"; "b"] two_token_store).1
    = Ok [(12250000 # 14500000, "b")] ∧
  NoDup (snd <$> [(12250000 # 14500000, "b")]) ∧
  ∀ p t, (p, t) ∈ [(12250000 # 14500000, "b")] →
         t ∈ ["a"; "b"] ∧
         (minimum_prob_strength one_discriminator <= Qabs (p - 0.5))%Q.
Proof.
  assert ((_getclues one_discriminator ["a"; "b"] two_token_store).1
          = Ok [(12250000 # 14500000, "b")]) as Hclues
    by (vm_compute; reflexivity).
  split; [exact Hclues|].
  exact (proj2 (getclues_discriminators one_discriminator ["a"; "b"]
                  two_token_store _ Hclues)).
Defined.

Lemma Qltb_asym (x y : Q) : Qltb x y = true → Qltb y x = false.
Proof.
  unfold Qltb. rewrite <- (Qcompare_antisym x y).
  by destruct (x ?= y)%Q.
Qed.

Lemma String_ltb_asym (x y : string) :
  String.ltb x y = true → String.ltb y x = false.
Proof.
  unfold String.ltb. rewrite (String.compare_antisym x y).
  by destruct (String.compare y x).
Qed.

Lemma tup_ltb_asym (a b : Q * Q * string) :
  tup_ltb a b = true → tup_ltb b a = false.
Proof.
  destruct a as [[d1 p1] t1], b as [[d2 p2] t2]. unfold tup_ltb.
  rewrite (Qeq_bool_comm d2 d1), (Qeq_bool_comm p2 p1).
  destruct (Qeq_bool d1 d2); simpl; [|apply Qltb_asym].
  destruct (Qeq_bool p1 p2); simpl; [apply String_ltb_asym | apply Qltb_asym].
Qed.

Lemma tup_ltb_distance (a b : Q * Q * string) :
  tup_ltb b a = false → (a.1.1 <= b.1.1)%Q.
Proof.
  destruct a as [[d1 p1] t1], b as [[d2 p2] t2]. unfold tup_ltb. simpl.
  destruct (Qeq_bool d2 d1) eqn:E; simpl.
  - intros _. apply Qeq_bool_iff in E. rewrite E. apply Qle_refl.
  - unfold Qltb. destruct (d2 ?= d1)%Q eqn:C; [| done |].
    + intros _. apply Qeq_alt in C. rewrite C. apply Qle_refl.
    + intros _. apply Qgt_alt in C. by apply Qlt_le_weak.
Qed.

Section py_sort_sorted.
Context {A : Type} (ltb : A → A → bool).
Hypothesis ltb_asym : ∀ a b, ltb a b = true → ltb b a = false.

Lemma py_insert_Sorted (x : A) (l : list A) :
  Sorted (λ a b, ltb b a = false) l →
  Sorted (λ a b, ltb b a = false) (py_insert ltb x l).
Proof.
  induction 1 as [|y l Hsorted IH Hhd]; simpl.
  - repeat constructor.
  - destruct (ltb y x) eqn:Hyx.
    + constructor; [done|]. destruct Hhd as [|z l Hz]; simpl.
      * constructor. by apply ltb_asym.
      * destruct (ltb z x); constructor; [done | by apply ltb_asym].
    + constructor; [by constructor | by constructor].
Qed.

Lemma py_sort_Sorted (l : list A) :
  Sorted (λ a b, ltb b a = false) (py_sort ltb l).
Proof.
  unfold py_sort. induction l as [|x l IH]; simpl; [constructor|].
  by apply py_insert_Sorted.
Qed.

End py_sort_sorted.

Lemma Sorted_take_prefix {A} (R : relation A) (n : nat) (l : list A) :
  Sorted R l → Sorted R (take n l).
Proof.
  intros Hs. revert n. induction Hs as [|x l Hs IH Hhd]; intros [|n]; simpl;
    try constructor; [apply IH|].
  destruct Hhd as [|y l Hy]; destruct n; simpl; by constructor.
Qed.

Lemma Sorted_clues (self : Classifier) (sel : list (Q * Q * string)) :
  Sorted (λ a b, tup_ltb b a = false) sel →
  Forall (kept_tuple self) sel →
  Sorted (λ c1 c2, (clue_distance c1 <= clue_distance c2)%Q)
    ((λ '(distance, prob, token), (prob, token)) <$> sel).
Proof.
  induction 1 as [|a l Hs IH Hhd]; intros Hall; simpl; [constructor|].
  apply Forall_cons in Hall as [Ha Hl].
  constructor; [by apply IH|].
  destruct Hhd as [|b l Hb]; simpl; constructor.
  apply Forall_cons in Hl as [Hkb _].
  apply tup_ltb_distance in Hb.
  destruct a as [[d1 p1] t1], b as [[d2 p2] t2].
  destruct Ha as [_ Ha], Hkb as [_ Hkb]. cbn [fst snd] in *.
  unfold clue_distance. cbn [fst snd]. by rewrite <- Ha, <- Hkb.
Qed.

(** X12. Whenever [_getclues] returns, on any store, the clues come in
    ascending order of their distance from 0.5: each clue is at least as far
    from one half as the clue before it. *)
Theorem getclues_ascending_distance {St : Type} `{!Store St}
    (self : Classifier) (tokens : list string) (s : St)
    (clues : list (Q * string)) :
  (_getclues self tokens s).1 = Ok clues →
  Sorted (λ c1 c2, (clue_distance c1 <= clue_distance c2)%Q) clues.
Proof.
  intros Hclues.
  destruct (getclues_selection self tokens s clues Hclues)
    as (new & sel & Hsub & Hall & Hsel & ->).
  assert (Sorted (λ a b, tup_ltb b a = false) sel) as Hsorted.
  { subst sel. unfold py_slice_to.
    destruct (_ <? 0); apply Sorted_take_prefix, py_sort_Sorted, tup_ltb_asym. }
  apply (Sorted_clues self); [done|].
  apply Forall_forall. intros tup Hin.
  apply (proj1 (Forall_forall _ _) Hall).
  rewrite <- (py_sort_Permutation tup_ltb new).
  eapply elem_of_submseteq; [exact Hin|].
  apply sublist_submseteq. subst sel. apply py_slice_to_sublist.
Qed.

Lemma getclues_ascending_distance_witness :
  (_getclues default_classifier ["a"; "b"] two_token_store).1
    = Ok [(12250000 # 14500000, "b"); (1022500000 # 1045000000, "a")] ∧
  Sorted (λ c1 c2, (clue_distance c1 <= clue_distance c2)%Q)
    [(12250000 # 14500000, "b"); (1022500000 # 1045000000, "a")].
Proof.
  assert ((_getclues default_classifier ["a"; "b"] two_token_store).1
          = Ok [(12250000 # 14500000, "b"); (1022500000 # 1045000000, "a")])
    as Hclues by (vm_compute; reflexivity).
  split; [exact Hclues|].
  exact (getclues_ascending_distance default_classifier ["a"; "b"]
           two_token_store _ Hclues).
Defined.

(** * Further properties of [spamprob] and [chi2Q] *)

Module SpamprobFacts.
Local Open Scope R_scope.

Lemma ln_powerRZ_2 (e : Z) : ln (powerRZ 2 e) = IZR e * ln 2.
Proof. rewrite powerRZ_Rpower by lra. apply ln_Rpower. Qed.

(** [math.frexp] splits a positive number into a positive mantissa and an
    exponent from which its logarithm is recovered. *)
Lemma math_frexp_ln (x : R) :
  0 < x →
  0 < (math_frexp x).1 ∧
  ln (math_frexp x).1 + IZR (math_frexp x).2 * LN2 = ln x.
Proof.
  intros Hx. unfold math_frexp, LN2.
  destruct (Req_dec_T x 0) as [->|_]; [lra|]. simpl.
  set (e := (Int_part (ln (Rabs x) / ln 2) + 1)%Z).
  assert (0 < powerRZ 2 (- e)) as Hpow by (apply powerRZ_lt; lra).
  split; [by apply Rmult_lt_0_compat|].
  rewrite ln_mult, ln_powerRZ_2, opp_IZR by done. ring.
Qed.

Lemma spamprob_step_ln (S_ H_ : R) (Sexp Hexp : Z) (clue : Q * string) :
  0 < S_ → 0 < H_ → proper_clue clue →
  let r := spamprob_step (S_, Sexp, H_, Hexp) clue in
  0 < r.1.1.1 ∧ 0 < r.1.2 ∧
  ln (r.1.1.1) + IZR (r.1.1.2) * LN2
    = ln S_ + IZR Sexp * LN2 + ln (1 - Q2R (clue.1)) ∧
  ln (r.1.2) + IZR (r.2) * LN2
    = ln H_ + IZR Hexp * LN2 + ln (Q2R (clue.1)).
Proof.
  intros HS HH Hp. destruct clue as [prob token]. unfold proper_clue in Hp.
  simpl in Hp. unfold spamprob_step. cbn [fst snd].
  assert (0 < S_ * (1 - Q2R prob)) as HS1 by (apply Rmult_lt_0_compat; lra).
  assert (0 < H_ * Q2R prob) as HH1 by (apply Rmult_lt_0_compat; lra).
  destruct (math_frexp_ln _ HS1) as [HmS HlS].
  destruct (math_frexp_ln _ HH1) as [HmH HlH].
  rewrite ln_mult in HlS by lra. rewrite ln_mult in HlH by lra.
  destruct (Rlt_dec (S_ * (1 - Q2R prob)) 1e-200),
           (Rlt_dec (H_ * Q2R prob) 1e-200);
    destruct (math_frexp (S_ * (1 - Q2R prob))) as [mS eS];
    destruct (math_frexp (H_ * Q2R prob)) as [mH eH];
    cbn [fst snd] in *;
    rewrite ?plus_IZR, ?ln_mult by lra;
    (split; [done|]); (split; [done|]); split; lra.
Qed.

Lemma spamprob_loop_ln (clues : list (Q * string)) :
  ∀ (S_ H_ : R) (Sexp Hexp : Z),
    0 < S_ → 0 < H_ → Forall proper_clue clues →
    let r := foldl spamprob_step (S_, Sexp, H_, Hexp) clues in
    0 < r.1.1.1 ∧ 0 < r.1.2 ∧
    ln (r.1.1.1) + IZR (r.1.1.2) * LN2
      = ln S_ + IZR Sexp * LN2 + ln_spam_sum clues ∧
    ln (r.1.2) + IZR (r.2) * LN2
      = ln H_ + IZR Hexp * LN2 + ln_ham_sum clues.
Proof.
  induction clues as [|clue clues IH]; intros S_ H_ Sexp Hexp HS HH Hall.
  - simpl. repeat split; try done; lra.
  - apply Forall_cons in Hall as [Hclue Hall]. cbn [foldl].
    destruct (spamprob_step_ln S_ H_ Sexp Hexp clue HS HH Hclue)
      as (HS1 & HH1 & ES & EH).
    destruct (spamprob_step (S_, Sexp, H_, Hexp) clue) as [[[S1 Sexp1] H1] Hexp1].
    cbn [fst snd] in *.
    destruct (IH S1 H1 Sexp1 Hexp1 HS1 HH1 Hall) as (HS2 & HH2 & ES2 & EH2).
    split; [done|]. split; [done|]. simpl ln_spam_sum. simpl ln_ham_sum.
    split; lra.
Qed.

End SpamprobFacts.

Module Chi2More.
Local Open Scope R_scope.

Lemma series_sum_ge_1 (n : nat) (m : R) : 0 <= m → 1 <= series_sum n m.
Proof.
  intros Hm. induction n as [|n IH]; simpl.
  - unfold series_term. simpl. lra.
  - pose proof (Chi2Facts.series_term_nonneg (S n) m Hm). lra.
Qed.

Lemma series_sum_at_0 (n : nat) : series_sum n 0 = 1.
Proof.
  induction n as [|n IH]; simpl.
  - unfold series_term. simpl. field.
  - rewrite IH. unfold series_term. rewrite pow_i by lia.
    unfold Rdiv. ring.
Qed.

Lemma chi2Q_series_pos (n : nat) (m : R) : 0 <= m → 0 < chi2Q_series n m.
Proof.
  intros Hm. unfold chi2Q_series. apply Rmult_lt_0_compat; [apply exp_pos|].
  pose proof (series_sum_ge_1 n m Hm). lra.
Qed.

Lemma py_min_1_bounds (x : R) : 0 < x → 0 < py_min x 1 <= 1.
Proof. intros Hx. unfold py_min. destruct (Rlt_dec 1 x); lra. Qed.

Lemma land_double (n : Z) : Z.land (2 * n) 1 = 0%Z.
Proof.
  change 1%Z with (Z.ones 1). rewrite Z.land_ones by lia.
  rewrite Z.mul_comm. apply Z.mod_mul. lia.
Qed.

End Chi2More.

(** X13. [chi2Q(0, v)] is exactly 1 for every even [v]. *)
Theorem chi2Q_at_zero (v : Z) : Z.land v 1 = 0 → chi2Q 0 v = Ok 1%R.
Proof.
  intros Hv. rewrite Chi2Facts.chi2Q_even by (done || lra). f_equal.
  unfold chi2Q_series.
  replace (0 / 2)%R with 0%R by lra.
  rewrite Chi2More.series_sum_at_0, Ropp_0, exp_0.
  unfold py_min. destruct (Rlt_dec 1 (1 * 1)); lra.
Qed.

Lemma chi2Q_at_zero_witness : Z.land 300 1 = 0 ∧ chi2Q 0 300 = Ok 1%R.
Proof. split; [reflexivity | exact (chi2Q_at_zero 300 eq_refl)]. Defined.

Lemma chi2Q_is_probability_aux (v : Z) (x2 : R) :
  Z.land v 1 = 0 → (0 <= x2)%R →
  ∃ q, chi2Q x2 v = Ok q ∧ (0 < q <= 1)%R.
Proof.
  intros Hv Hx. eexists. split; [apply Chi2Facts.chi2Q_even; [done | lra]|].
  apply Chi2More.py_min_1_bounds, Chi2More.chi2Q_series_pos. lra.
Qed.

(** X14. For every even [v] and every [x2 >= 0], [chi2Q(x2, v)] returns a
    value between 0 and 1, both ends included. *)
Theorem chi2Q_is_probability (v : Z) (x2 : R) :
  Z.land v 1 = 0 → (0 <= x2)%R →
  ∃ q, chi2Q x2 v = Ok q ∧ (0 <= q <= 1)%R.
Proof.
  intros Hv Hx.
  destruct (chi2Q_is_probability_aux v x2 Hv Hx) as (q & Hq & Hlo & Hhi).
  exists q. split; [done|]. split; [by left | done].
Qed.

Lemma chi2Q_is_probability_witness :
  ∃ q, chi2Q 3 4 = Ok q ∧ (0 <= q <= 1)%R.
Proof.
  assert (0 <= 3)%R as H3 by lra.
  exact (chi2Q_is_probability 4 3 eq_refl H3).
Defined.

(** X15. [chi2Q] checks the parity of [v] and nothing else about it: for an
    odd [v] it raises [AssertionError] whatever [x2] is, and for an even
    [v <= 2], zero and the negative even numbers included, the loop does not
    run and the result is that of [exp(-x2 / 2)]: its [OverflowError], or
    [min(exp(-x2 / 2), 1.0)], the value for two degrees of freedom; for
    [x2 >= 0] it is the latter. *)
Theorem chi2Q_degrees (v : Z) (x2 : R) :
  (Z.odd v = true → chi2Q x2 v = Raise (AssertionError "")) ∧
  (Z.even v = true → v ≤ 2 →
   chi2Q x2 v = match math_exp (- (x2 / 2)) with
                | Raise e => Raise e
                | Ok e => Ok (py_min e 1)
                end ∧
   ((0 <= x2)%R → chi2Q x2 v = Ok (py_min (exp (- (x2 / 2))) 1))).
Proof.
  assert (Z.land v 1 = v `mod` 2) as Hland.
  { change 1 with (Z.ones 1). rewrite Z.land_ones by lia. done. }
  split.
  - intros Hodd. unfold chi2Q. rewrite Hland.
    rewrite Zmod_odd, Hodd. done.
  - intros Heven Hle.
    assert (Z.land v 1 = 0) as Hv by (rewrite Hland, Zmod_even, Heven; done).
    rewrite (Chi2Facts.chi2Q_no_loop x2 v Hv Hle). split; [done|].
    intros Hx. by rewrite Chi2Facts.math_exp_returns by lra.
Qed.

Lemma chi2Q_degrees_witness :
  Z.odd 3 = true ∧ chi2Q 1 3 = Raise (AssertionError "") ∧
  Z.even 0 = true ∧ 0 ≤ 2 ∧ (0 <= 1)%R ∧
  chi2Q 1 0 = Ok (py_min (exp (- (1 / 2))) 1).
Proof.
  assert (0 ≤ 2) as H02 by lia.
  assert (0 <= 1)%R as H01 by lra.
  split; [reflexivity|].
  split; [exact (proj1 (chi2Q_degrees 3 1) eq_refl)|].
  split; [reflexivity|]. split; [exact H02|]. split; [exact H01|].
  exact (proj2 (proj2 (chi2Q_degrees 0 1) eq_refl H02) H01).
Defined.

Lemma math_log_pos (x : R) : (0 < x)%R → math_log x = Ok (ln x).
Proof. intros Hx. unfold math_log. by destruct (Rlt_dec 0 x). Qed.

Section spamprob_combining.
Context {St : Type} `{!Store St}.
Variable self : Classifier.

(** With proper clues the two logarithms are recovered and fed to [chi2Q]. *)
Lemma spamprob_combines (tokens : list string) (evidence : bool)
    (s s' : St) (clues : list (Q * string)) :
  _getclues self tokens s = (Ok clues, s') →
  clues ≠ [] →
  Forall proper_clue clues →
  ∃ q_spam q_ham,
    chi2Q (-2 * ln_spam_sum clues) (2 * Z.of_nat (length clues)) = Ok q_spam ∧
    chi2Q (-2 * ln_ham_sum clues) (2 * Z.of_nat (length clues)) = Ok q_ham ∧
    (0 < q_spam <= 1)%R ∧ (0 < q_ham <= 1)%R ∧
    spamprob self tokens evidence s =
    (Ok (let prob := ((1 - q_spam - (1 - q_ham) + 1) / 2)%R in
         if evidence then
           ProbEvidence prob
             (("*H*", (1 - q_ham)%R) :: ("*S*", (1 - q_spam)%R) ::
                ((λ c : string * Q, (c.1, Q2R c.2)) <$>
                   py_sort (λ a b : string * Q, Qltb (a.2) (b.2))
                     ((λ c : Q * string, (c.2, c.1)) <$> clues)))
         else Prob prob), s').
Proof.
  intros Hget Hne Hall.
  assert (∀ clues, Forall proper_clue clues →
            (ln_spam_sum clues <= 0 ∧ ln_ham_sum clues <= 0)%R) as Hneg.
  { induction 1 as [|[p t] l Hp _ [IH1 IH2]]; simpl; [lra|].
    unfold proper_clue in Hp. simpl in Hp.
    assert (ln (1 - Q2R p) < 0)%R
      by (rewrite <- ln_1; apply ln_increasing; lra).
    assert (ln (Q2R p) < 0)%R by (rewrite <- ln_1; apply ln_increasing; lra).
    lra. }
  destruct (Hneg clues Hall) as [Hs Hh].
  destruct (chi2Q_is_probability_aux (2 * Z.of_nat (length clues))
              (-2 * ln_spam_sum clues)) as (q_spam & Eqs & Hqs);
    [apply Chi2More.land_double | lra |].
  destruct (chi2Q_is_probability_aux (2 * Z.of_nat (length clues))
              (-2 * ln_ham_sum clues)) as (q_ham & Eqh & Hqh);
    [apply Chi2More.land_double | lra |].
  exists q_spam, q_ham. split; [done|]. split; [done|].
  split; [done|]. split; [done|].
  unfold spamprob. rewrite run_bind, Hget.
  pose proof (SpamprobFacts.spamprob_loop_ln clues 1 1 0 0
                ltac:(lra) ltac:(lra) Hall) as Hloop.
  destruct (foldl spamprob_step (1%R, 0, 1%R, 0) clues)
    as [[[S_ Sexp] H_] Hexp].
  cbn [fst snd] in Hloop. destruct Hloop as (HS & HH & ES & EH).
  rewrite ln_1 in ES, EH.
  replace (0 + 0 * LN2 + ln_spam_sum clues)%R with (ln_spam_sum clues) in ES
    by lra.
  replace (0 + 0 * LN2 + ln_ham_sum clues)%R with (ln_ham_sum clues) in EH
    by lra.
  cbv beta iota.
  rewrite run_bind. unfold lift at 1. rewrite (math_log_pos S_ HS).
  rewrite run_bind. unfold lift at 1. rewrite (math_log_pos H_ HH).
  rewrite ES, EH.
  assert (negb (Z.of_nat (length clues) =? 0) = true) as ->.
  { destruct clues; [done|]. simpl length.
    destruct (Z.eqb_spec (Z.of_nat (S (length clues))) 0); [lia|done]. }
  rewrite run_bind, run_bind. unfold lift at 1. rewrite Eqs.
  rewrite run_bind. unfold lift at 1. rewrite Eqh.
  rewrite run_ret. by destruct evidence.
Qed.

End spamprob_combining.

(** X16. The score is a combination of two chi-squared tail probabilities of
    the true sums of logarithms: on any store, when [_getclues] returns at
    least one clue and every clue's probability is strictly between 0 and 1,
    [spamprob] returns normally, with or without evidence; its score is
    [(chi2Q(-2 * sum(ln p), 2n) - chi2Q(-2 * sum(ln(1 - p)), 2n) + 1) / 2] for
    the [n] clues, whatever the number of times the running products were
    rescaled by [frexp], and lies between 0 and 1, both ends included. *)
Theorem spamprob_score {St : Type} `{!Store St}
    (self : Classifier) (tokens : list string) (evidence : bool)
    (s s' : St) (clues : list (Q * string)) :
  _getclues self tokens s = (Ok clues, s') →
  clues ≠ [] →
  Forall proper_clue clues →
  ∃ q_spam q_ham r,
    chi2Q (-2 * ln_spam_sum clues) (2 * Z.of_nat (length clues)) = Ok q_spam ∧
    chi2Q (-2 * ln_ham_sum clues) (2 * Z.of_nat (length clues)) = Ok q_ham ∧
    spamprob self tokens evidence s = (Ok r, s') ∧
    score r = ((q_ham - q_spam + 1) / 2)%R ∧
    (0 <= score r <= 1)%R.
Proof.
  intros Hget Hne Hall.
  destruct (spamprob_combines self tokens evidence s s' clues Hget Hne Hall)
    as (q_spam & q_ham & Eqs & Eqh & Hqs & Hqh & Hrun).
  exists q_spam, q_ham. eexists. split; [done|]. split; [done|].
  split; [exact Hrun|].
  assert (score (let prob := ((1 - q_spam - (1 - q_ham) + 1) / 2)%R in
                 if evidence then
                   ProbEvidence prob
                     (("*H*", (1 - q_ham)%R) :: ("*S*", (1 - q_spam)%R) ::
                        ((λ c : string * Q, (c.1, Q2R c.2)) <$>
                           py_sort (λ a b : string * Q, Qltb (a.2) (b.2))
                             ((λ c : Q * string, (c.2, c.1)) <$> clues)))
                 else Prob prob)
          = ((q_ham - q_spam + 1) / 2)%R) as ->.
  { destruct evidence; simpl; lra. }
  split; [done|]. lra.
Qed.

Lemma proper_clueb_spec (clue : Q * string) :
  proper_clueb clue = true → proper_clue clue.
Proof.
  unfold proper_clueb, proper_clue, Qltb. intros Hb.
  apply andb_prop in Hb as [H0 H1].
  destruct (0 ?= clue.1)%Q eqn:C0; try discriminate.
  destruct (clue.1 ?= 1)%Q eqn:C1; try discriminate.
  apply Qlt_alt in C0, C1. apply Qlt_Rlt in C0, C1.
  rewrite RMicromega.Q2R_0 in C0. rewrite RMicromega.Q2R_1 in C1. done.
Qed.

Lemma proper_clue_b : proper_clue (12250000 # 14500000, "b").
Proof. by apply proper_clueb_spec. Qed.

Lemma proper_clue_a : proper_clue (1022500000 # 1045000000, "a").
Proof. by apply proper_clueb_spec. Qed.

Lemma numbered_clues_proper : Forall proper_clue numbered_clues.
Proof.
  assert (forallb proper_clueb numbered_clues = true) as Hall
    by (vm_compute; reflexivity).
  apply Forall_forall. intros clue Hin. apply proper_clueb_spec.
  rewrite forallb_forall in Hall. apply Hall.
  rewrite <- list_elem_of_In. exact Hin.
Qed.

Lemma numbered_clues_length : length numbered_clues = 150%nat.
Proof. vm_compute. reflexivity. Qed.

Lemma numbered_clues_nonempty : numbered_clues ≠ [].
Proof.
  intros Hnil. apply (f_equal length) in Hnil.
  rewrite numbered_clues_length in Hnil. discriminate Hnil.
Qed.

(** The witness has 150 clues, and the product of their [1.0 - prob] is
    below [1e-200]: the running product [S] is rescaled on the way. *)
Lemma spamprob_score_witness :
  length numbered_clues = 150%nat ∧
  Qltb (spam_product numbered_clues) (1 # 10 ^ 200) = true ∧
  ∃ q_spam q_ham r,
    chi2Q (-2 * ln_spam_sum numbered_clues)
      (2 * Z.of_nat (length numbered_clues)) = Ok q_spam ∧
    chi2Q (-2 * ln_ham_sum numbered_clues)
      (2 * Z.of_nat (length numbered_clues)) = Ok q_ham ∧
    spamprob default_classifier numbered_tokens false numbered_store
      = (Ok r, numbered_store) ∧
    score r = ((q_ham - q_spam + 1) / 2)%R ∧
    (0 <= score r <= 1)%R.
Proof.
  pose proof numbered_clues_length as Hlen.
  assert (Qltb (spam_product numbered_clues) (1 # 10 ^ 200) = true) as Hsmall
    by (vm_compute; reflexivity).
  assert (_getclues default_classifier numbered_tokens numbered_store
          = (Ok numbered_clues, numbered_store)) as Hget
    by (vm_compute; reflexivity).
  split; [exact Hlen|]. split; [exact Hsmall|].
  exact (spamprob_score default_classifier numbered_tokens false numbered_store
           numbered_store numbered_clues Hget numbered_clues_nonempty
           numbered_clues_proper).
Defined.

(** X17. A message with a single clue scores that clue's probability: on any
    store, when [_getclues] returns exactly one clue, of probability [p]
    strictly between 0 and 1, [spamprob] returns [p]. *)
Theorem spamprob_single_clue {St : Type} `{!Store St}
    (self : Classifier) (tokens : list string) (evidence : bool)
    (s s' : St) (p : Q) (t : string) :
  _getclues self tokens s = (Ok [(p, t)], s') →
  (0 < Q2R p < 1)%R →
  ∃ r, spamprob self tokens evidence s = (Ok r, s') ∧ score r = Q2R p.
Proof.
  intros Hget Hp.
  assert (Forall proper_clue [(p, t)]) as Hall
    by (constructor; [exact Hp | constructor]).
  destruct (spamprob_combines self tokens evidence s s' [(p, t)] Hget
              ltac:(discriminate) Hall)
    as (q_spam & q_ham & Eqs & Eqh & _ & _ & Hrun).
  assert (∀ x, (0 < x < 1)%R → chi2Q (-2 * (ln x + 0)) (2 * 1) = Ok x) as Hchi.
  { intros x Hx.
    assert (ln x < 0)%R as Hln by (rewrite <- ln_1; apply ln_increasing; lra).
    rewrite Chi2Facts.chi2Q_even by (done || lra). f_equal.
    replace (Z.to_nat ((2 * 1) `div` 2 - 1)) with 0%nat by done.
    unfold chi2Q_series. simpl series_sum. unfold series_term. simpl.
    replace (- (-2 * (ln x + 0) / 2))%R with (ln x) by lra.
    rewrite exp_ln by lra.
    replace (x * (1 / 1))%R with x by field.
    unfold py_min. destruct (Rlt_dec 1 x); [lra|done]. }
  simpl in Eqs, Eqh.
  rewrite Hchi in Eqs by lra. rewrite Hchi in Eqh by lra.
  injection Eqs as <-. injection Eqh as <-.
  eexists. split; [exact Hrun|]. destruct evidence; simpl; lra.
Qed.

Lemma spamprob_single_clue_witness :
  ∃ r, spamprob one_discriminator ["a"; "b"] false two_token_store
         = (Ok r, two_token_store) ∧
       score r = Q2R (12250000 # 14500000).
Proof.
  assert (_getclues one_discriminator ["a"; "b"] two_token_store
          = (Ok [(12250000 # 14500000, "b")], two_token_store)) as Hget
    by (vm_compute; reflexivity).
  exact (spamprob_single_clue one_discriminator ["a"; "b"] false
           two_token_store two_token_store _ "b" Hget proper_clue_b).
Defined.

Lemma Qltb_false_le (x y : Q) : Qltb y x = false → (x <= y)%Q.
Proof.
  unfold Qltb. destruct (y ?= x)%Q eqn:C; [| done |]; intros _.
  - apply Qeq_alt in C. rewrite C. apply Qle_refl.
  - apply Qgt_alt in C. by apply Qlt_le_weak.
Qed.

(** X18. The evidence list: on any store, whenever [spamprob] is asked for
    evidence and returns, the list starts with the entry ["*H*"], then the
    entry ["*S*"], and the rest holds exactly the clues of [_getclues], each
    as [(token, probability)], in ascending order of probability. *)
Theorem spamprob_evidence {St : Type} `{!Store St}
    (self : Classifier) (tokens : list string) (s : St)
    (clues : list (Q * string)) (r : spamprob_result) :
  (_getclues self tokens s).1 = Ok clues →
  (spamprob self tokens true s).1 = Ok r →
  ∃ h_stat s_stat rest,
    evidence_of r = ("*H*", h_stat) :: ("*S*", s_stat) :: rest ∧
    rest ≡ₚ (λ c : Q * string, (c.2, Q2R (c.1))) <$> clues ∧
    Sorted (λ a b : string * R, (a.2 <= b.2)%R) rest.
Proof.
  intros Hget. unfold spamprob. rewrite run_bind.
  destruct (_getclues self tokens s) as [[clues'|e] s1]; [|done].
  simpl in Hget. injection Hget as ->.
  destruct (foldl spamprob_step (1%R, 0, 1%R, 0) clues)
    as [[[S_ Sexp] H_] Hexp].
  cbv beta iota. rewrite run_bind. unfold lift at 1.
  destruct (math_log S_) as [lnS|e]; [|done].
  rewrite run_bind. unfold lift at 1.
  destruct (math_log H_) as [lnH|e]; [|done].
  rewrite run_bind.
  match goal with
  | |- context [match ?stats s1 with _ => _ end] =>
      destruct (stats s1) as [[[[prob S1] H1]|e] s2]; [|done]
  end.
  rewrite run_ret. simpl. intros [= <-]. simpl.
  eexists _, _, _. split; [reflexivity|]. split.
  - rewrite py_sort_Permutation, <- list_fmap_compose.
    assert (∀ l1 l2 : list (string * R), l1 = l2 → l1 ≡ₚ l2) as Heq
      by (by intros ? ? ->).
    apply Heq. by apply list_fmap_ext.
  - apply (Sorted_fmap _ (λ a b : string * Q, Qltb (b.2) (a.2) = false)).
    + intros a b Hab. simpl. by apply Qle_Rle, Qltb_false_le.
    + apply (py_sort_Sorted (λ a b : string * Q, Qltb (a.2) (b.2))).
      intros a b. apply Qltb_asym.
Qed.

Lemma spamprob_evidence_witness :
  ∃ r h_stat s_stat rest,
    (_getclues default_classifier ["a"; "b"] two_token_store).1
      = Ok [(12250000 # 14500000, "b"); (1022500000 # 1045000000, "a")] ∧
    (spamprob default_classifier ["a"; "b"] true two_token_store).1 = Ok r ∧
    evidence_of r = ("*H*", h_stat) :: ("*S*", s_stat) :: rest ∧
    rest ≡ₚ (λ c : Q * string, (c.2, Q2R (c.1))) <$>
              [(12250000 # 14500000, "b"); (1022500000 # 1045000000, "a")] ∧
    Sorted (λ a b : string * R, (a.2 <= b.2)%R) rest.
Proof.
  assert (_getclues default_classifier ["a"; "b"] two_token_store
          = (Ok [(12250000 # 14500000, "b"); (1022500000 # 1045000000, "a")],
             two_token_store)) as Hget by (vm_compute; reflexivity).
  assert (Forall proper_clue
            [(12250000 # 14500000, "b"); (1022500000 # 1045000000, "a")])
    as Hall
    by (constructor; [exact proper_clue_b |
        constructor; [exact proper_clue_a | constructor]]).
  destruct (spamprob_combines default_classifier ["a"; "b"] true
              two_token_store two_token_store _ Hget ltac:(discriminate) Hall)
    as (q_spam & q_ham & _ & _ & _ & _ & Hrun).
  pose proof (f_equal fst Hget) as Hclues.
  pose proof (f_equal fst Hrun) as Hres. cbn [fst] in Hclues, Hres.
  destruct (spamprob_evidence default_classifier ["a"; "b"] two_token_store
              _ _ Hclues Hres) as (h_stat & s_stat & rest & Hev & Hperm & Hsort).
  eexists _, h_stat, s_stat, rest.
  split; [exact Hclues|]. split; [exact Hres|].
  split; [exact Hev|]. split; [exact Hperm | exact Hsort].
Defined.

(** * Properties of the Gaussian functions *)

Module GaussFacts.
Local Open Scope R_scope.

Lemma sqrt2pi_pos : 0 < sqrt2pi.
Proof.
  unfold sqrt2pi. apply sqrt_lt_R0. pose proof PI_RGT_0. lra.
Qed.

(** The rational approximation of [normIQ], for an argument in (0, 0.5]:
    no step of it raises. *)
Lemma normIQ_approximation (p : R) :
  0 < p → p <= 0.5 →
  ∃ z,
    (lnp ← math_log p;
     t ← math_sqrt (-2 * lnp);
     q ← float_div (2.30753 + 0.27061 * t) (1 + 0.99229 * t + 0.04481 * t ^ 2);
     Ok (t - q)) = Ok z.
Proof.
  intros Hp0 Hp1. rewrite (math_log_pos p Hp0).
  assert (ln p < 0) as Hln by (rewrite <- ln_1; apply ln_increasing; lra).
  change (Ok (ln p) ≫= ?f) with (f (ln p)). cbv beta.
  unfold math_sqrt. destruct (Rlt_dec (-2 * ln p) 0) as [Hneg|_]; [lra|].
  change (Ok ?x ≫= ?f) with (f x). cbv beta.
  set (t := sqrt (-2 * ln p)).
  assert (0 <= t) as Ht by apply sqrt_pos.
  assert (0 <= t ^ 2) as Ht2 by (apply pow_le; lra).
  unfold float_div.
  destruct (Req_dec_T (1 + 0.99229 * t + 0.04481 * t ^ 2) 0) as [Hz|_].
  - assert (0 <= 0.99229 * t) by (apply Rmult_le_pos; lra).
    assert (0 <= 0.04481 * t ^ 2) by (apply Rmult_le_pos; lra). lra.
  - by eexists.
Qed.

Lemma normIQ_low (p : R) :
  0 < p → p <= 0.5 →
  ∃ z, normIQ p = Ok z ∧
       ∀ p', 0.5 < p' → p' <= 1 → 1 - p' = p → normIQ p' = Ok (- z).
Proof.
  intros Hp0 Hp1. destruct (normIQ_approximation p Hp0 Hp1) as [z Hz].
  exists z. split.
  - unfold normIQ.
    destruct (Rle_dec 0 p); [|lra]. destruct (Rle_dec p 1); [|lra].
    destruct (Rlt_dec 0.5 p); [lra|]. cbv zeta iota.
    destruct (Req_dec_T p 0); [lra|]. by rewrite Hz.
  - intros p' Hlo Hhi Heq. unfold normIQ.
    destruct (Rle_dec 0 p'); [|lra]. destruct (Rle_dec p' 1); [|lra].
    destruct (Rlt_dec 0.5 p'); [|lra]. cbv zeta iota. rewrite Heq.
    destruct (Req_dec_T p 0); [lra|]. by rewrite Hz.
Qed.

Lemma normIQ_0 : normIQ 0 = Ok 8.3.
Proof.
  unfold normIQ. destruct (Rle_dec 0 0); [|lra]. destruct (Rle_dec 0 1); [|lra].
  destruct (Rlt_dec 0.5 0); [lra|]. cbv zeta iota.
  by destruct (Req_dec_T 0 0).
Qed.

Lemma normIQ_1 : normIQ 1 = Ok (Ropp 8.3).
Proof.
  unfold normIQ. destruct (Rle_dec 0 1); [|lra]. destruct (Rle_dec 1 1); [|lra].
  destruct (Rlt_dec 0.5 1); [|lra]. cbv zeta iota.
  destruct (Req_dec_T (1 - 1) 0) as [_|Hne]; [reflexivity|].
  exfalso. apply Hne. lra.
Qed.

End GaussFacts.

(** X19. [normIQ] on and off its domain: outside [[0, 1]] it raises
    [AssertionError]; at the two ends it returns the saturated values,
    [normIQ(0) = 8.3] and [normIQ(1) = -8.3]; and everywhere on [[0, 1]] it
    returns a value, no logarithm, square root or division of it raising. *)
Theorem normIQ_domain (p : R) :
  ((p < 0 ∨ 1 < p)%R → normIQ p = Raise (AssertionError "")) ∧
  normIQ 0 = Ok 8.3%R ∧
  normIQ 1 = Ok (Ropp 8.3) ∧
  ((0 <= p <= 1)%R → ∃ z, normIQ p = Ok z).
Proof.
  pose proof GaussFacts.normIQ_0 as H0. pose proof GaussFacts.normIQ_1 as H1.
  split; [|split; [done|split; [done|]]].
  - intros Hout. unfold normIQ.
    destruct (Rle_dec 0 p); [|done]. destruct (Rle_dec p 1); [lra|done].
  - intros [Hlo Hhi].
    destruct (Req_dec_T p 0) as [->|Hne0]; [by eexists|].
    destruct (Rle_dec p 0.5) as [Hhalf|Hhalf].
    + destruct (GaussFacts.normIQ_low p ltac:(lra) Hhalf) as (z & Hz & _).
      by exists z.
    + destruct (Req_dec_T p 1) as [->|Hne1]; [by eexists|].
      destruct (GaussFacts.normIQ_low (1 - p) ltac:(lra) ltac:(lra))
        as (z & _ & Hz).
      exists (- z)%R. apply Hz; lra.
Qed.

Lemma normIQ_domain_witness :
  (2 < 0 ∨ 1 < 2)%R ∧ normIQ 2 = Raise (AssertionError "") ∧
  (0 <= 0.25 <= 1)%R ∧ ∃ z, normIQ 0.25 = Ok z.
Proof.
  assert (2 < 0 ∨ 1 < 2)%R as Hout by (right; lra).
  assert (0 <= 0.25 <= 1)%R as Hin by lra.
  split; [exact Hout|]. split; [exact (proj1 (normIQ_domain 2) Hout)|].
  split; [exact Hin|].
  exact (proj2 (proj2 (proj2 (normIQ_domain 0.25))) Hin).
Defined.

(** X20. [normIQ] mirrors the upper half of its domain onto the lower: for
    [0.5 < p <= 1], [normIQ(1 - p)] returns, and [normIQ(p)] returns its
    negation. *)
Theorem normIQ_mirrored (p : R) :
  (0.5 < p <= 1)%R →
  ∃ z, normIQ (1 - p) = Ok z ∧ normIQ p = Ok (- z)%R.
Proof.
  intros [Hlo Hhi].
  pose proof GaussFacts.normIQ_0 as H0. pose proof GaussFacts.normIQ_1 as H1.
  destruct (Req_dec_T p 1) as [->|Hne1].
  { exists 8.3%R. split; [|done]. by replace (1 - 1)%R with 0%R by lra. }
  destruct (GaussFacts.normIQ_low (1 - p) ltac:(lra) ltac:(lra))
    as (z & Hz & Hflip).
  exists z. split; [done|]. apply Hflip; lra.
Qed.

Lemma normIQ_mirrored_witness :
  (0.5 < 0.75 <= 1)%R ∧
  ∃ z, normIQ (1 - 0.75) = Ok z ∧ normIQ 0.75 = Ok (- z)%R.
Proof.
  assert (0.5 < 0.75 <= 1)%R as Hin by lra.
  split; [exact Hin|].
  exact (normIQ_mirrored 0.75 Hin).
Defined.

(** X21. [normZ] is never negative, it is even, and it is largest at
    zero. *)
Theorem normZ_shape (z : R) :
  (0 <= normZ z)%R ∧ normZ (- z) = normZ z ∧ (normZ z <= normZ 0)%R.
Proof.
  pose proof GaussFacts.sqrt2pi_pos as Hpos.
  unfold normZ. split; [|split].
  - left. apply Rdiv_lt_0_compat; [apply exp_pos | done].
  - f_equal. f_equal. lra.
  - apply Rmult_le_compat_r; [left; by apply Rinv_0_lt_compat|].
    replace (- 0 * 0 / 2)%R with 0%R by lra.
    destruct (Req_dec_T z 0) as [->|Hz].
    + replace (- 0 * 0 / 2)%R with 0%R by lra. lra.
    + left. apply exp_increasing.
      assert (0 < z * z)%R by (apply Rsqr_pos_lt in Hz; exact Hz). lra.
Qed.

(** * Tokens the store has never seen *)

Section unknown_tokens.
Context {St : Type} `{!Store St}.
Variable self : Classifier.
Hypothesis prior_is_weak :
  Qle_bool (minimum_prob_strength self) (Qabs (unknown_token_prob self - 0.5))
  = false.

Lemma getclues_loop_unknown (counts : gmap string (Z * Z)) (tokens : list string) :
  (∀ w, w ∈ tokens → counts !! w = None) →
  ∀ (acc : list (Q * Q * string)) (s : St),
    for_each (λ clues token,
                tup ← _worddistanceget self counts token;
                if Qle_bool (minimum_prob_strength self) (tup.1.1)
                then mret (clues ++ [tup])
                else mret clues) tokens acc s = (Ok acc, s).
Proof.
  induction tokens as [|token tokens IH]; intros Hnone acc s; [done|].
  simpl for_each. rewrite run_bind, run_bind. unfold _worddistanceget.
  rewrite run_bind, (Hnone token) by (apply elem_of_cons; by left).
  rewrite !run_ret. cbn [fst snd]. rewrite prior_is_weak, run_ret.
  apply IH. intros w Hw. apply Hnone, elem_of_cons. by right.
Qed.

Lemma spamprob_unknown (tokens : list string) (evidence : bool) (s s' : St)
    (counts : gmap string (Z * Z)) :
  get_token_counts (py_set tokens) s = (Ok counts, s') →
  (∀ w, w ∈ py_set tokens → counts !! w = None) →
  (spamprob self tokens evidence s).1 = Ok (neutral evidence).
Proof.
  intros Hget Hnone. apply spamprob_no_clues.
  unfold _getclues. rewrite run_bind, Hget, run_bind.
  rewrite getclues_loop_unknown by done. rewrite !run_ret. simpl.
  unfold py_slice_to. rewrite !take_nil.
  by destruct (max_discriminators self <? 0).
Qed.

End unknown_tokens.

(** X22. A message made of tokens the store has never seen scores exactly
    one half. When [unknown_token_prob] is nearer to 0.5 than
    [minimum_prob_strength], as with the default attributes, and no token of
    the stream has an entry in the volatile store (no row in the durable
    store), [spamprob] returns 0.5, with the evidence
    [("*H*", 0.0), ("*S*", 0.0)] when asked for it. In particular an
    untrained classifier scores every message one half. *)
Theorem spamprob_unknown_tokens
    (self : Classifier) (tokens : list string) (evidence : bool)
    (s : HeapStore.t) (db : gmap string (Z * Z)) :
  Qle_bool (minimum_prob_strength self) (Qabs (unknown_token_prob self - 0.5))
    = false →
  ((∀ w, w ∈ tokens →
         HeapStore.spam s !! w = None ∧ HeapStore.ham s !! w = None) →
   (spamprob self tokens evidence s).1 = Ok (neutral evidence)) ∧
  ((∀ w, w ∈ tokens → db !! w = None) →
   (spamprob self tokens evidence db).1 = Ok (neutral evidence)) ∧
  (spamprob self tokens evidence HeapStore.init).1 = Ok (neutral evidence) ∧
  (spamprob self tokens evidence (∅ : gmap string (Z * Z))).1
    = Ok (neutral evidence).
Proof.
  intros Hweak.
  assert (∀ w, w ∈ py_set tokens → w ∈ tokens) as Hset.
  { intros w. unfold py_set. by rewrite elem_of_elements, elem_of_list_to_set. }
  assert (∀ s : HeapStore.t,
            (∀ w, w ∈ tokens →
                  HeapStore.spam s !! w = None ∧ HeapStore.ham s !! w = None) →
            (spamprob self tokens evidence s).1 = Ok (neutral evidence)) as Hheap.
  { intros s0 Hnone. eapply (spamprob_unknown self Hweak); [reflexivity|].
    intros w Hw. simpl. rewrite heap_get_token_counts_fold, lookup_empty.
    destruct (Hnone w (Hset w Hw)) as [Hs Hh].
    rewrite (dict_in_None _ _ Hs), (dict_in_None _ _ Hh). simpl.
    by destruct (decide (w ∈ py_set tokens)). }
  assert (∀ db : gmap string (Z * Z),
            (∀ w, w ∈ tokens → db !! w = None) →
            (spamprob self tokens evidence db).1 = Ok (neutral evidence)) as Hsql.
  { intros db0 Hnone. eapply (spamprob_unknown self Hweak); [reflexivity|].
    intros w Hw. simpl. rewrite sqlite_get_token_counts_fold, lookup_empty.
    rewrite (Hnone w (Hset w Hw)).
    by destruct (decide (w ∈ py_set tokens)). }
  split; [apply Hheap|]. split; [apply Hsql|]. split.
  - apply Hheap. intros w _. simpl. split; apply lookup_empty.
  - apply Hsql. intros w _. apply lookup_empty.
Qed.

Lemma spamprob_unknown_tokens_witness :
  Qle_bool (minimum_prob_strength default_classifier)
    (Qabs (unknown_token_prob default_classifier - 0.5)) = false ∧
  (∀ w, w ∈ ["c"; "d"] →
        HeapStore.spam two_token_store !! w = None ∧
        HeapStore.ham two_token_store !! w = None) ∧
  (spamprob default_classifier ["c"; "d"] false two_token_store).1
    = Ok (Prob 0.5).
Proof.
  assert (Qle_bool (minimum_prob_strength default_classifier)
            (Qabs (unknown_token_prob default_classifier - 0.5)) = false)
    as Hweak by reflexivity.
  assert (∀ w, w ∈ ["c"; "d"] →
               HeapStore.spam two_token_store !! w = None ∧
               HeapStore.ham two_token_store !! w = None) as Hnone.
  { intros w Hw. apply elem_of_cons in Hw as [->|Hw]; [by vm_compute|].
    apply elem_of_cons in Hw as [->|Hw]; [by vm_compute|].
    by apply not_elem_of_nil in Hw. }
  split; [exact Hweak|]. split; [exact Hnone|].
  exact (proj1 (spamprob_unknown_tokens default_classifier ["c"; "d"] false
                  two_token_store ∅ Hweak) Hnone).
Defined.
